(** * zimage.py: conversion of split q/k/v LoRA adapters to the fused qkv layout

    A shallow embedding of [convert_lora] (src/zimage.py, lines 25-98) and the
    properties of its key classification, block-diagonal merge, alpha
    rescaling and error handling; and of its callers in [LoRAConverterGUI]
    (lines 173-235): the proposed output name, the progress callback, the
    single-file task and the batch task.

    Modelling conventions.
    - Keys are [string]s; the Python string methods the converter uses
      ([in], [replace], [rsplit], [split], [join], [endswith]) are written
      out as recursive functions on them.
    - A tensor is a shape and its elements in row-major order.  The element
      type [elt] is a parameter: it stands for the checkpoint's dtype, with
      the three operations the converter needs from it (the zero that
      [torch.zeros] fills with, the test [x != 0] behind the truth value of a
      one-element tensor, and the product [x * 3.0]).  Conversions of element
      values between different dtypes are not modelled.
    - [lora_dict] is an insertion-ordered association list (the order of
      [.items()]); [output_dict] is a finite map; [layer_groups] is an
      insertion-ordered association list of six-slot records.
    - The body of the [try] block is a computation in a state-and-exception
      monad, so that what was stored before an exception stays stored, as in
      Python.
    - The load primitives are parameters that yield a map or fail; the save
      primitive is recorded as the file it writes.  A progress callback is an
      observer: it updates a state of its own and returns.
    - The two tasks run on a disk (a map from paths to files) and on the
      state of the window (the value of the progress bar, the lines of the
      log, the dialogs shown).  There the call of the save primitive is
      carried out: it completes, or it raises and leaves the output path
      untouched or with what was written until then.  The folders and their
      listings are read only.  Each task is run to its end, as one
      sequential computation. *)

From Stdlib Require Import Ascii Floats Uint63.
From stdpp Require Import gmap strings list fin_maps pretty.

(** ** Python string methods *)

Module Str.

(** [s.startswith(p)] *)
Fixpoint startswith (p s : string) : bool :=
  match p, s with
  | "", _ => true
  | String a p', String b s' => if Ascii.eqb a b then startswith p' s' else false
  | String _ _, "" => false
  end.

(** [sub in s] *)
Fixpoint contains (sub s : string) : bool :=
  startswith sub s ||
  match s with
  | "" => false
  | String _ s' => contains sub s'
  end.

(** [s.replace(old, new)] for a non-empty [old]: the occurrences of [old]
    are found left to right and do not overlap.  [skip] counts the
    characters of a matched occurrence that are still to be dropped. *)
Fixpoint replace_go (old new : string) (skip : nat) (s : string) : string :=
  match s with
  | "" => ""
  | String c s' =>
      match skip with
      | S n => replace_go old new n s'
      | O =>
          if startswith old s
          then new +:+ replace_go old new (String.length old - 1) s'
          else String c (replace_go old new 0 s')
      end
  end.

Definition replace (old new s : string) : string := replace_go old new 0 s.

(** The part of [s] before the last occurrence of [sep], if there is one. *)
Fixpoint rfind_head (sep s : string) : option string :=
  match s with
  | "" => if startswith sep "" then Some "" else None
  | String c s' =>
      match rfind_head sep s' with
      | Some h => Some (String c h)
      | None => if startswith sep s then Some "" else None
      end
  end.

(** [s.rsplit(sep, 1)[0]] *)
Definition rsplit1_head (sep s : string) : string :=
  default s (rfind_head sep s).

(** [s.split(c)] for a one-character separator *)
Fixpoint split (sep : ascii) (s : string) : list string :=
  match s with
  | "" => [""]
  | String c s' =>
      if Ascii.eqb c sep then "" :: split sep s'
      else match split sep s' with
           | p :: ps => String c p :: ps
           | [] => [String c ""]
           end
  end.

(** [sep.join(l)] *)
Fixpoint join (sep : string) (l : list string) : string :=
  match l with
  | [] => ""
  | [x] => x
  | x :: l' => x +:+ sep +:+ join sep l'
  end.

(** [s.endswith(sfx)] *)
Definition endswith (sfx s : string) : bool :=
  let n := String.length s in
  let m := String.length sfx in
  if m <=? n then String.eqb (String.substring (n - m) m s) sfx else false.

(** [l[:-2]] *)
Definition drop_last2 {A} (l : list A) : list A := take (length l - 2) l.

(** [os.path.basename(p)] (POSIX): what follows the last slash. *)
Fixpoint basename (p : string) : string :=
  match p with
  | "" => ""
  | String c p' =>
      if contains "/" p then basename p' else p
  end.

(** The characters of a key. *)
Definition chars := String.list_ascii_of_string.

End Str.

(** ** Tensors *)

(** What the converter needs from the element type of the checkpoint. *)
Class Element (elt : Type) := {
  zero : elt;              (* the value [torch.zeros] fills with *)
  nonzero : elt → bool;    (* [x != 0] *)
  times3 : elt → elt;      (* [x * 3.0] *)
}.

Record Tensor (elt : Type) := mkTensor {
  shape : list nat;
  data : list elt;         (* row-major *)
}.
Arguments mkTensor {elt} _ _.
Arguments shape {elt} _.
Arguments data {elt} _.

Definition numel_of (s : list nat) : nat := foldr Nat.mul 1 s.

(** A slice [a:b] with non-negative bounds, [None] for an omitted bound, on
    a dimension of size [n]: its first index and its length. *)
Definition slice_bounds (sl : option nat * option nat) (n : nat) : nat * nat :=
  let lo := default 0 sl.1 `min` n in
  let hi := default n sl.2 `min` n in
  (lo, hi - lo).

Fixpoint strip_ones (s : list nat) : list nat :=
  match s with
  | 1 :: s' => strip_ones s'
  | _ => s
  end.

(** Whether a tensor of shape [src] can be assigned to an [h]×[w] region:
    the shapes agree, or [src] without its leading dimensions of size one
    expands to the region (each dimension equal or of size one). *)
Definition assignable (src : list nat) (h w : nat) : bool :=
  bool_decide (src = [h; w]) ||
  match strip_ones src with
  | [] => true
  | [b] => (b =? w) || (b =? 1)
  | [a; b] => ((a =? h) || (a =? 1)) && ((b =? w) || (b =? 1))
  | _ => false
  end.

Definition tail_is (tl s : list nat) : bool :=
  match s with
  | [] => false
  | _ :: tl' => bool_decide (tl' = tl)
  end.

(** The shape of [torch.cat(ts, dim=0)] from the shapes of [ts]: they must
    agree apart from the first dimension; one-dimensional empty tensors are
    skipped.  [None] when torch raises. *)
Definition cat_shape (shapes : list (list nat)) : option (list nat) :=
  match shapes with
  | [] => None
  | _ =>
      match filter (λ s, s ≠ [0]) shapes with
      | [] => Some [0]
      | [] :: _ => None
      | (d :: tl) :: rest =>
          if forallb (tail_is tl) rest
          then Some (sum_list (hd 0 <$> (d :: tl) :: rest) :: tl)
          else None
      end
  end.

Section Torch.
Context {elt : Type} `{Element elt}.

(** A tensor holds as many elements as its shape says. *)
Definition wf (t : Tensor elt) : Prop := length (data t) = numel_of (shape t).

(** The elements [f i j] for [i < rows], [j < cols], in row-major order. *)
Definition tabulate2 (rows cols : nat) (f : nat → nat → elt) : list elt :=
  seq 0 rows ≫= λ i, f i <$> seq 0 cols.

(** Element [(i, j)] of a two-dimensional tensor. *)
Definition get2 (t : Tensor elt) (i j : nat) : option elt :=
  match shape t with
  | [_; c] => if j <? c then data t !! (i * c + j) else None
  | _ => None
  end.

(** [torch.zeros(rows, cols, dtype=...)] *)
Definition zeros (rows cols : nat) : Tensor elt :=
  mkTensor [rows; cols] (replicate (rows * cols) zero).

(** The value that [region = src] gives to position [(i, j)] of an
    [h]×[w] region, for an assignable [src]. *)
Definition broadcast_read (src : Tensor elt) (h w : nat) (i j : nat) : elt :=
  let rd idx := nth idx (data src) zero in
  if decide (shape src = [h; w]) then rd (i * w + j)
  else
    match strip_ones (shape src) with
    | [b] => rd (if b =? 1 then 0 else j)
    | [a; b] => rd ((if a =? 1 then 0 else i) * b + (if b =? 1 then 0 else j))
    | _ => rd 0
    end.

(** [dst[rows, cols] = src] on a two-dimensional [dst]; [None] when the
    shapes do not fit (torch raises RuntimeError). *)
Definition setitem2 (dst : Tensor elt) (rows cols : option nat * option nat)
    (src : Tensor elt) : option (Tensor elt) :=
  match shape dst with
  | [R; C] =>
      let '(r0, h) := slice_bounds rows R in
      let '(c0, w) := slice_bounds cols C in
      if assignable (shape src) h w
      then Some (mkTensor [R; C]
                   (tabulate2 R C (λ i j,
                      if (r0 <=? i) && (i <? r0 + h) && (c0 <=? j) && (j <? c0 + w)
                      then broadcast_read src h w (i - r0) (j - c0)
                      else nth (i * C + j) (data dst) zero)))
      else None
  | _ => None
  end.

(** [torch.cat(ts, dim=0)] *)
Definition cat0 (ts : list (Tensor elt)) : option (Tensor elt) :=
  s ← cat_shape (shape <$> ts);
  Some (mkTensor s (concat (data <$> ts))).

(** [bool(t)]: defined for tensors of exactly one element. *)
Definition tensor_bool (t : Tensor elt) : option bool :=
  match data t with
  | [x] => Some (nonzero x)
  | _ => None
  end.

(** [t * 3.0] *)
Definition mul3 (t : Tensor elt) : Tensor elt :=
  mkTensor (shape t) (times3 <$> data t).

End Torch.

(** ** The converter *)

(** The projection a key belongs to ([p[3:]] of a segment [to_q], [to_k],
    [to_v]) and the low-rank factor it names. *)
Inductive attn := attn_q | attn_k | attn_v.
Inductive lora := lora_A | lora_B.

Definition attn_of_part (p : string) : option attn :=
  if decide (p = "to_q") then Some attn_q
  else if decide (p = "to_k") then Some attn_k
  else if decide (p = "to_v") then Some attn_v
  else None.

Definition lora_of_part (p : string) : option lora :=
  if decide (p = "lora_A") then Some lora_A
  else if decide (p = "lora_B") then Some lora_B
  else None.

(** [any(x in key for x in ('.to_q.', '.to_k.', '.to_v.'))] *)
Definition has_qkv_marker (key : string) : bool :=
  Str.contains ".to_q." key || Str.contains ".to_k." key || Str.contains ".to_v." key.

(** Lines 64-70: the group, projection and factor of a merge candidate;
    [None] when [attn_type] or [lora_type] is not found. *)
Definition merge_slot (key : string) : option (string * attn * lora) :=
  let parts := Str.split "." key in
  let attn_type := head (omap attn_of_part parts) in
  let lora_type := head (omap lora_of_part parts) in
  match attn_type, lora_type with
  | Some a, Some l =>
      let base_parts := filter (λ p, attn_of_part p = None) parts in
      let base_key := Str.join "." (Str.drop_last2 base_parts) in
      Some (base_key, a, l)
  | _, _ => None
  end.

Definition rename_out (key : string) : string := Str.replace ".to_out.0." ".out." key.

(** The suffixes of the keys the fusion stores under. *)
Definition fused_suffixes : list string :=
  [".qkv.lora_B.weight"; ".qkv.lora_A.weight"; ".qkv.alpha"].

(** The exceptions [convert_lora] lets escape. *)
Inductive exn :=
  | ValueError (msg : string)
  | LoadError.

Definition metadata : list (string * string) :=
  [("converted_for", "z-image-turbo / Lumina2"); ("script", "batch_converter.py")].

Section Converter.
Context {elt : Type} `{Element elt}.

Local Abbreviation tensor := (Tensor elt).
Local Abbreviation dict := (list (string * Tensor elt)).
Local Abbreviation out_map := (gmap string (Tensor elt)).

(** [lora_dict.get(key)] *)
Fixpoint dict_get (key : string) (d : dict) : option tensor :=
  match d with
  | [] => None
  | (k', v) :: d' => if decide (k' = key) then Some v else dict_get key d'
  end.

(** One entry of [layer_groups]: [qkv_dict[attn_type][lora_type]]. *)
Record factors := mkFactors {
  at_A : option tensor;
  at_B : option tensor;
}.

Record qkv := mkQkv {
  at_q : option factors;
  at_k : option factors;
  at_v : option factors;
}.

Definition no_factors : factors := mkFactors None None.
Definition no_qkv : qkv := mkQkv None None None.

Definition set_factor (l : lora) (value : tensor) (f : option factors) : option factors :=
  let f := default no_factors f in
  Some match l with
       | lora_A => mkFactors (Some value) (at_B f)
       | lora_B => mkFactors (at_A f) (Some value)
       end.

Definition set_slot (a : attn) (l : lora) (value : tensor) (d : qkv) : qkv :=
  match a with
  | attn_q => mkQkv (set_factor l value (at_q d)) (at_k d) (at_v d)
  | attn_k => mkQkv (at_q d) (set_factor l value (at_k d)) (at_v d)
  | attn_v => mkQkv (at_q d) (at_k d) (set_factor l value (at_v d))
  end.

(** [qkv_dict[a][l]]; [None] stands for KeyError. *)
Definition get_slot (a : attn) (l : lora) (d : qkv) : option tensor :=
  f ← match a with attn_q => at_q d | attn_k => at_k d | attn_v => at_v d end;
  match l with lora_A => at_A f | lora_B => at_B f end.

Local Abbreviation groups := (list (string * qkv)).

(** [layer_groups[base_key][attn_type][lora_type] = value]: a new group is
    appended, an existing one is updated in place. *)
Fixpoint groups_set (base_key : string) (a : attn) (l : lora) (value : tensor)
    (layer_groups : groups) : groups :=
  match layer_groups with
  | [] => [(base_key, set_slot a l value no_qkv)]
  | (g, d) :: rest =>
      if decide (g = base_key) then (g, set_slot a l value d) :: rest
      else (g, d) :: groups_set base_key a l value rest
  end.

(** *** First loop (lines 43-74): classify every key *)

Definition parse_key (lora_dict : dict) (st : out_map * groups)
    (kv : string * tensor) : out_map * groups :=
  let '(output_dict, layer_groups) := st in
  let '(key, value) := kv in
  if Str.contains ".attention.to_out.0." key then
    let new_key := rename_out key in
    let output_dict := <[new_key := value]> output_dict in
    let output_dict :=
      if Str.contains "lora_A" key then
        let base := Str.rsplit1_head ".lora_A" key in
        let alpha_key := base +:+ ".alpha" in
        match dict_get alpha_key lora_dict with
        | Some alpha =>
            let new_alpha := rename_out alpha_key in
            <[new_alpha := alpha]> output_dict
        | None => output_dict
        end
      else output_dict in
    (output_dict, layer_groups)
  else if Str.contains ".attention.to_" key && Str.contains ".alpha" key then
    (output_dict, layer_groups)
  else
    match
      (if Str.contains ".attention.to_" key && has_qkv_marker key
       then merge_slot key else None)
    with
    | Some (base_key, attn_type, lora_type) =>
        (output_dict, groups_set base_key attn_type lora_type value layer_groups)
    | None => (<[key := value]> output_dict, layer_groups)
    end.

(** *** Second loop (lines 76-94): fuse the groups *)

(** Lines 79-85: the fused factors [(qkv_B, qkv_A)] of a group.  [None]
    when a slot is missing (KeyError), [qB] is not two-dimensional
    (ValueError on unpacking) or the shapes do not fit (RuntimeError). *)
Definition fuse_tensors (qkv_dict : qkv) : option (tensor * tensor) :=
  qB ← get_slot attn_q lora_B qkv_dict;
  kB ← get_slot attn_k lora_B qkv_dict;
  vB ← get_slot attn_v lora_B qkv_dict;
  qA ← get_slot attn_q lora_A qkv_dict;
  kA ← get_slot attn_k lora_A qkv_dict;
  vA ← get_slot attn_v lora_A qkv_dict;
  '(h, r) ← match shape qB with [h; r] => Some (h, r) | _ => None end;
  let qkv_B := zeros (3 * h) (3 * r) in
  qkv_B ← setitem2 qkv_B (None, Some h) (None, Some r) qB;
  qkv_B ← setitem2 qkv_B (Some h, Some (2 * h)) (Some r, Some (2 * r)) kB;
  qkv_B ← setitem2 qkv_B (Some (2 * h), None) (Some (2 * r), None) vB;
  qkv_A ← cat0 [qA; kA; vA];
  Some (qkv_B, qkv_A).

(** [a or b] on two optional tensors: [a] when it is present and true,
    otherwise [b]; taking the truth value of [a] may raise. *)
Definition first_true (a b : option tensor) : option (option tensor) :=
  match a with
  | None => Some b
  | Some t => truth ← tensor_bool t; Some (if truth : bool then Some t else b)
  end.

(** The state the [try] block works on, and computations that may raise:
    the state reached when the exception is raised is kept. *)
Definition Try (A : Type) : Type := out_map * nat → option A * (out_map * nat).

Definition ret {A} (x : A) : Try A := λ s, (Some x, s).
Definition bind {A B} (m : Try A) (f : A → Try B) : Try B :=
  λ s, match m s with
       | (Some x, s') => f x s'
       | (None, s') => (None, s')
       end.
(** A pure step, raising when it has no result. *)
Definition lift {A} (o : option A) : Try A := λ s, (o, s).
(** [output_dict[key] = value] *)
Definition store (key : string) (value : tensor) : Try unit :=
  λ s, (Some (), (<[key := value]> s.1, s.2)).
(** [converted_count += 1] *)
Definition count_one : Try unit := λ s, (Some (), (s.1, S s.2)).

Notation "x ⇐ m ;; k" := (bind m (λ x, k))
  (at level 100, m at next level, right associativity).
Notation "m ;;; k" := (bind m (λ _, k))
  (at level 100, right associativity).

(** The body of the [try] block. *)
Definition fuse_group (lora_dict : dict) (base_key : string) (qkv_dict : qkv) : Try unit :=
  fused ⇐ lift (fuse_tensors qkv_dict);;
  store (base_key +:+ ".qkv.lora_B.weight") fused.1;;;
  store (base_key +:+ ".qkv.lora_A.weight") fused.2;;;
  count_one;;;
  alpha_q ⇐ lift (first_true (dict_get (base_key +:+ ".to_q.alpha") lora_dict)
                             (dict_get (base_key +:+ ".to_q.lora_A.alpha") lora_dict));;
  match alpha_q with
  | Some alpha => store (base_key +:+ ".qkv.alpha") (mul3 alpha)
  | None => ret ()
  end.

(** [all(x in qkv_dict for x in ('q', 'k', 'v'))] *)
Definition has_all_axes (qkv_dict : qkv) : bool :=
  bool_decide (is_Some (at_q qkv_dict)) && bool_decide (is_Some (at_k qkv_dict))
  && bool_decide (is_Some (at_v qkv_dict)).

(** One iteration: the [if], and [try: ... except: continue]. *)
Definition merge_group (lora_dict : dict) (st : out_map * nat)
    (g : string * qkv) : out_map * nat :=
  if has_all_axes g.2 then (fuse_group lora_dict g.1 g.2 st).2 else st.

(** *** The whole call *)

Section Driver.
(** The two load primitives ([None]: the file cannot be read), and the
    state of whoever listens to the progress reports. *)
Variables load_file torch_load : string → option dict.
Context {Obs : Type}.

Definition callback : Type := nat → string → Obs → Obs.

Record saved := mkSaved {
  saved_path : string;
  saved_tensors : out_map;
  saved_metadata : list (string * string);
}.

Record loop_state := mkLoop {
  processed : nat;
  output_dict : out_map;
  layer_groups : groups;
  observer : Obs;
}.

Definition loop_body (lora_dict : dict) (progress_callback : option callback)
    (total_keys : nat) (st : loop_state) (kv : string * tensor) : loop_state :=
  let processed := S (processed st) in
  let observer :=
    match progress_callback with
    | Some cb =>
        if processed `mod` 100 =? 0
        then cb (10 + (40 * processed) `div` total_keys) "Parsing keys..." (observer st)
        else observer st
    | None => observer st
    end in
  let '(output_dict, layer_groups) :=
    parse_key lora_dict (output_dict st, layer_groups st) kv in
  mkLoop processed output_dict layer_groups observer.

(** Lines 30-35: the loaded map, or the exception raised. *)
Definition open_checkpoint (input_path : string) : exn + dict :=
  if Str.endswith ".safetensors" input_path then
    match load_file input_path with Some d => inr d | None => inl LoadError end
  else if Str.endswith ".pt" input_path || Str.endswith ".pth" input_path then
    match torch_load input_path with Some d => inr d | None => inl LoadError end
  else inl (ValueError "Unsupported file format").

(** What a call does: the value returned or the exception raised, the
    file written (if any), and the listener's final state. *)
Definition convert_lora (input_path output_path : string)
    (progress_callback : option callback) (obs : Obs)
    : (exn + nat) * option saved * Obs :=
  let obs :=
    match progress_callback with
    | Some cb => cb 0 ("Loading: " +:+ Str.basename input_path) obs
    | None => obs
    end in
  match open_checkpoint input_path with
  | inl e => (inl e, None, obs)
  | inr lora_dict =>
      let total_keys := length lora_dict in
      let st := foldl (loop_body lora_dict progress_callback total_keys)
                      (mkLoop 0 ∅ [] obs) lora_dict in
      let '(output_dict, converted_count) :=
        foldl (merge_group lora_dict) (output_dict st, 0) (layer_groups st) in
      (inr converted_count, Some (mkSaved output_path output_dict metadata), observer st)
  end.
End Driver.

(** The two loops on a loaded map, without the file and progress plumbing
    ([convert_lora_result] below relates them to [convert_lora]). *)
Definition first_loop (lora_dict : dict) : out_map * groups :=
  foldl (parse_key lora_dict) (∅, []) lora_dict.

Definition transform (lora_dict : dict) : out_map * nat :=
  foldl (merge_group lora_dict) ((first_loop lora_dict).1, 0) (first_loop lora_dict).2.

End Converter.

(** ** The callers: file names, the progress callback, the two tasks

    The methods of [LoRAConverterGUI] that compute: the output name that
    [browse_single_in] proposes, [update_progress], and the bodies of
    [run_single] and [run_batch] (each runs as one sequential task).  Paths
    follow the POSIX conventions of [os.path].  The window is the state the
    tasks change: the value of the progress bar, the lines of the log pane
    and the dialogs shown.  The disk is a map from paths to files; the
    folders, with the listing of each, are read and never changed. *)

Module Path.

(** [os.path.join(a, b)] *)
Definition join (a b : string) : string :=
  if Str.startswith "/" b then b
  else if bool_decide (a = "") || Str.endswith "/" a then a +:+ b
  else a +:+ "/" +:+ b.

(** [os.path.splitext(p)]: the extension starts at the last dot, unless
    that dot lies before the last slash or has only dots between it and the
    start of the file name. *)
Definition splitext (p : string) : string * string :=
  match Str.rfind_head "." p with
  | Some root =>
      let ext := String.substring (String.length root)
                   (String.length p - String.length root) p in
      if Str.contains "/" ext then (p, "")
      else if forallb (Ascii.eqb ".") (Str.chars (Str.basename root)) then (p, "")
      else (root, ext)
  | None => (p, "")
  end.

End Path.

(** Lines 178: the output path proposed for a chosen input path. *)
Definition suggested_output (p : string) : string :=
  Str.replace ".pt" "_zimage.safetensors"
    (Str.replace ".safetensors" "_zimage.safetensors" p).

(** [browse_single_in], given the path [p] the file dialog returned, on the
    variables [(in_file, out_file)]. *)
Definition browse_single_in (p : string) (vars : string * string) : string * string :=
  if bool_decide (p = "") then vars
  else (p, if bool_decide (vars.2 = "") then suggested_output p else vars.2).

(** Line 202: the files of the source folder that the batch takes. *)
Definition batch_accepts (f : string) : bool :=
  (Str.endswith ".safetensors" f || Str.endswith ".pt" f)
  && negb (Str.contains "_zimage" f).

(** Lines 212-213: the name of the output file for an input file. *)
Definition batch_output_name (filename : string) : string :=
  (Path.splitext filename).1 +:+ "_zimage.safetensors".

(** A Python number: an [int] or a [float]. *)
Inductive number :=
  | Int (n : nat)
  | Float (x : float).

Definition float_of_nat (n : nat) : float :=
  PrimFloat.of_uint63 (Uint63.of_Z (Z.of_nat n)).

Inductive dialog :=
  | showinfo (title message : string)
  | showerror (title message : string).

Record gui := mkGui {
  progress_value : number;
  log_text : list string;
  dialogs : list dialog;
}.

(** [self.log(msg)] *)
Definition log (msg : string) (g : gui) : gui :=
  mkGui (progress_value g) (log_text g ++ [msg]) (dialogs g).

(** [messagebox.showinfo(...)], [messagebox.showerror(...)] *)
Definition show (d : dialog) (g : gui) : gui :=
  mkGui (progress_value g) (log_text g) (dialogs g ++ [d]).

(** [self.progress['value'] = v] *)
Definition set_progress (v : number) (g : gui) : gui :=
  mkGui v (log_text g) (dialogs g).

(** [update_progress] (lines 233-235) *)
Definition update_progress : @callback gui :=
  λ val status g,
    let g := set_progress (Int val) g in
    if val `mod` 20 =? 0 then log status g else g.

Section Tasks.
Context {elt : Type} `{Element elt}.

Local Abbreviation dict := (list (string * Tensor elt)).
Local Abbreviation out_map := (gmap string (Tensor elt)).

(** The files on the disk, by path. *)
Context {File : Type}.
Local Abbreviation disk := (gmap string File).

(** How a call of [save_file] ends: it completes, and the path holds the
    serialised map; or it raises, and the path is as it was ([None]: the
    file could not be opened) or holds what was written until then. *)
Inductive save_result :=
  | Completes
  | Raises (remains : option File).

(** What the two load primitives make of a file; how [save_file] ends on
    a disk for what it is given, and the file it writes when it completes;
    the text of the exception of a failed load or save. *)
Variables read_safetensors read_pickle : File → option dict.
Variable save_file : disk → @saved elt → save_result.
Variable write_safetensors : out_map → list (string * string) → File.
Variable load_error_text : string → string.
Variable save_error_text : @saved elt → string.

(** The folders that exist, each with the listing that [os.listdir] gives
    for it.  No task creates or removes a folder, and the batch task reads
    the listing of its source folder once (line 202), before it writes. *)
Variable folders : gmap string (list string).

(** [os.path.isdir], [os.listdir], [os.path.exists] *)
Definition isdir (p : string) : bool :=
  negb (bool_decide (p = "")) && bool_decide (is_Some (folders !! p)).
Definition listdir (p : string) : list string := default [] (folders !! p).
Definition path_exists (fs : disk) (p : string) : bool :=
  bool_decide (is_Some (fs !! p)) || isdir p.

(** What a call of [convert_lora] raises: an exception of its own code,
    or that of [save_file]. *)
Inductive failure :=
  | Raised (input_path : string) (e : exn)
  | SaveFailed (f : @saved elt).

(** [str(e)] *)
Definition failure_text (e : failure) : string :=
  match e with
  | Raised _ (ValueError msg) => msg
  | Raised input_path LoadError => load_error_text input_path
  | SaveFailed f => save_error_text f
  end.

(** A call of [convert_lora] on the disk: the files are read from it, and
    the call of [save_file] (line 97) is carried out on it. *)
Definition convert_at {Obs : Type} (fs : disk) (input_path output_path : string)
    (progress_callback : option (@callback Obs)) (obs : Obs)
    : (failure + nat) * disk * Obs :=
  let '(result, request, obs) :=
    convert_lora (λ p, fs !! p ≫= read_safetensors)
                 (λ p, fs !! p ≫= read_pickle)
                 input_path output_path progress_callback obs in
  match result, request with
  | inr n, Some f =>
      match save_file fs f with
      | Completes =>
          (inr n,
           <[saved_path f := write_safetensors (saved_tensors f) (saved_metadata f)]> fs,
           obs)
      | Raises remains =>
          (inl (SaveFailed f),
           match remains with
           | Some partial => <[saved_path f := partial]> fs
           | None => fs
           end,
           obs)
      end
  | inr n, None => (inr n, fs, obs)
  | inl e, _ => (inl (Raised input_path e), fs, obs)
  end.

(** The task of [run_single] (lines 185-190), on the variables
    [in_file] and [out_file]. *)
Definition run_single (in_file out_file : string) (st : disk * gui) : disk * gui :=
  let '(result, fs, g) := convert_at st.1 in_file out_file (Some update_progress) st.2 in
  match result with
  | inr _ =>
      (fs, show (showinfo "Done" "Single conversion successful.")
             (log ("Finished: " +:+ Str.basename out_file) g))
  | inl e => (fs, log ("Error: " +:+ failure_text e) g)
  end.

(** The paths of one iteration of the loop of [run_batch] (lines 210-213). *)
Definition batch_paths (in_dir out_dir filename : string) : string * string :=
  (Path.join in_dir filename, Path.join out_dir (batch_output_name filename)).

(** One iteration of the loop of [run_batch] (lines 209-226); [n] is
    [len(files)]. *)
Definition batch_step (in_dir out_dir : string) (skip_existing : bool) (n : nat)
    (st : disk * gui) (item : nat * string) : disk * gui :=
  let '(fs, g) := st in
  let '(i, filename) := item in
  let '(in_p, out_p) := batch_paths in_dir out_dir filename in
  if skip_existing && path_exists fs out_p then
    (fs, log ("Skipping (Already exists): " +:+ filename) g)
  else
    let '(result, fs, _) := convert_at fs in_p out_p None () in
    let g :=
      match result with
      | inr _ =>
          log ("[" +:+ pretty (i + 1) +:+ "/" +:+ pretty n +:+ "] Converted: "
               +:+ filename +:+ " -> " +:+ Str.basename out_p) g
      | inl e => log ("Failed " +:+ filename +:+ ": " +:+ failure_text e) g
      end in
    (fs, set_progress (Float (float_of_nat (i + 1) / float_of_nat n * 100)%float) g).

(** Line 202 *)
Definition batch_files (in_dir : string) : list string :=
  filter (λ f, batch_accepts f) (listdir in_dir).

(** The task of [run_batch] (lines 194-229), on the variables
    [batch_in_dir], [batch_out_dir] and [skip_existing]. *)
Definition run_batch (batch_in_dir batch_out_dir : string) (skip_existing : bool)
    (st : disk * gui) : disk * gui :=
  let '(fs, g) := st in
  let in_dir := batch_in_dir in
  let out_dir := if bool_decide (batch_out_dir = "") then in_dir else batch_out_dir in
  if negb (isdir in_dir) then
    (fs, show (showerror "Error" "Source folder not found.") g)
  else
    let found := batch_files in_dir in
    if bool_decide (found = []) then
      (fs, log "No valid LoRA files found in source folder." g)
    else
      let g := log ("Found " +:+ pretty (length found)
                    +:+ " files. Starting batch processing...") g in
      let '(fs, g) :=
        foldl (batch_step in_dir out_dir skip_existing (length found)) (fs, g)
              (zip (seq 0 (length found)) found) in
      (fs, show (showinfo "Done" "All files processed.")
             (log "Batch processing complete." g)).

End Tasks.

(** ** Vocabulary of the statements

    The converter only ever stores into [output_dict]; the statements below
    speak about the sequence of these stores. *)

Section Vocabulary.
Context {elt : Type} `{Element elt}.

Local Abbreviation tensor := (Tensor elt).
Local Abbreviation dict := (list (string * Tensor elt)).
Local Abbreviation out_map := (gmap string (Tensor elt)).

(** Performing a sequence of stores [output_dict[key] = value]. *)
Definition apply_writes (ws : list (string * tensor)) (m : out_map) : out_map :=
  foldl (λ m w, <[w.1 := w.2]> m) m ws.

(** The merge-group slot an entry is captured into, if any. *)
Definition entry_slot (key : string) : option (string * attn * lora) :=
  if Str.contains ".attention.to_out.0." key then None
  else if Str.contains ".attention.to_" key && Str.contains ".alpha" key then None
  else if Str.contains ".attention.to_" key && has_qkv_marker key then merge_slot key
  else None.

(** What the first loop does to [layer_groups] for one entry. *)
Definition collect (gs : list (string * qkv)) (kv : string * tensor) : list (string * qkv) :=
  match entry_slot kv.1 with
  | Some (base_key, a, l) => groups_set base_key a l kv.2 gs
  | None => gs
  end.

(** The stores the first loop performs while it processes one entry. *)
Definition entry_writes (lora_dict : dict) (kv : string * tensor) : list (string * tensor) :=
  let key := kv.1 in
  if Str.contains ".attention.to_out.0." key then
    (rename_out key, kv.2) ::
    (if Str.contains "lora_A" key then
       let alpha_key := Str.rsplit1_head ".lora_A" key +:+ ".alpha" in
       match dict_get alpha_key lora_dict with
       | Some alpha => [(rename_out alpha_key, alpha)]
       | None => []
       end
     else [])
  else if Str.contains ".attention.to_" key && Str.contains ".alpha" key then []
  else match entry_slot key with
       | Some _ => []
       | None => [kv]
       end.

(** The merge groups collected by the first loop. *)
Definition groups_of (lora_dict : dict) : list (string * qkv) :=
  (first_loop lora_dict).2.

(** The stores the second loop performs for one group, and what it adds
    to [converted_count]. *)
Definition group_writes (lora_dict : dict) (g : string * qkv) : list (string * tensor) :=
  if has_all_axes g.2 then
    match fuse_tensors g.2 with
    | Some (qkv_B, qkv_A) =>
        (g.1 +:+ ".qkv.lora_B.weight", qkv_B) ::
        (g.1 +:+ ".qkv.lora_A.weight", qkv_A) ::
        match first_true (dict_get (g.1 +:+ ".to_q.alpha") lora_dict)
                         (dict_get (g.1 +:+ ".to_q.lora_A.alpha") lora_dict) with
        | Some (Some alpha) => [(g.1 +:+ ".qkv.alpha", mul3 alpha)]
        | _ => []
        end
    | None => []
    end
  else [].

Definition group_count (d : @qkv elt) : nat :=
  if has_all_axes d then (if fuse_tensors d is Some _ then 1 else 0) else 0.

(** All stores of a run, in the order they happen. *)
Definition writes (lora_dict : dict) : list (string * tensor) :=
  (lora_dict ≫= entry_writes lora_dict)
  ++ (groups_of lora_dict ≫= group_writes lora_dict).

(** The stores of a run that do not come from the entry named [key]. *)
Definition other_writes (lora_dict : dict) (key : string) : list (string * tensor) :=
  (filter (λ kv, kv.1 ≠ key) lora_dict ≫= entry_writes lora_dict)
  ++ (groups_of lora_dict ≫= group_writes lora_dict).

(** No store of the run puts a tensor other than [value] under [key]. *)
Definition uncontested (lora_dict : dict) (key : string) (value : tensor) : Prop :=
  ∀ t, (key, t) ∈ writes lora_dict → t = value.

(** The six tensors a group holds. *)
Definition group_is (d : @qkv elt) (qA qB kA kB vA vB : tensor) : Prop :=
  get_slot attn_q lora_A d = Some qA ∧ get_slot attn_q lora_B d = Some qB
  ∧ get_slot attn_k lora_A d = Some kA ∧ get_slot attn_k lora_B d = Some kB
  ∧ get_slot attn_v lora_A d = Some vA ∧ get_slot attn_v lora_B d = Some vB.

(** Well-formed tensors of one shape. *)
Definition all_shaped (s : list nat) (ts : list tensor) : Prop :=
  Forall (λ t, shape t = s ∧ wf t) ts.

(** The q, k or v tensor by block index 0, 1 or 2. *)
Definition pick (a : nat) (tq tk tv : tensor) : tensor :=
  match a with 0 => tq | 1 => tk | _ => tv end.

(** All six slots of a group are filled. *)
Definition complete (d : @qkv elt) : bool :=
  forallb (λ al : attn * lora, bool_decide (is_Some (get_slot al.1 al.2 d)))
    [(attn_q, lora_A); (attn_q, lora_B); (attn_k, lora_A);
     (attn_k, lora_B); (attn_v, lora_A); (attn_v, lora_B)].

Definition slot_shape (a : attn) (l : lora) (d : @qkv elt) : list nat :=
  default [] (shape <$> get_slot a l d).

(** The shapes of a group fit the tensor operations of the fusion: the q
    factor B is two-dimensional, of shape [(h, r)]; the k and v factors B
    can be assigned to an [h]×[r] block; the three factors A can be
    concatenated along their first dimension. *)
Definition shape_compatible (d : @qkv elt) : bool :=
  match slot_shape attn_q lora_B d with
  | [h; r] =>
      assignable (slot_shape attn_k lora_B d) h r
      && assignable (slot_shape attn_v lora_B d) h r
      && bool_decide (is_Some (cat_shape [slot_shape attn_q lora_A d;
                                          slot_shape attn_k lora_A d;
                                          slot_shape attn_v lora_A d]))
  | _ => false
  end.

End Vocabulary.

(** ** Vocabulary of the count: groups and slots as the input keys name them *)

#[global] Instance attn_eq_dec : EqDecision attn.
Proof. solve_decision. Defined.

#[global] Instance lora_eq_dec : EqDecision lora.
Proof. solve_decision. Defined.



Section CountVocabulary.
Context {elt : Type} `{Element elt}.

Local Abbreviation tensor := (Tensor elt).
Local Abbreviation dict := (list (string * Tensor elt)).

(** The tensors of the entries whose keys name slot [(a, l)] of group [g],
    in the order of the input map. *)
Definition slot_entries (lora_dict : dict) (g : string) (a : attn) (l : lora)
    : list tensor :=
  omap (λ kv, if decide (entry_slot kv.1 = Some (g, a, l)) then Some kv.2 else None)
       lora_dict.

(** The tensor the input map gives to the slot: that of the last such
    entry. *)
Definition slot_tensor (lora_dict : dict) (g : string) (a : attn) (l : lora)
    : option tensor :=
  last (slot_entries lora_dict g a l).



End CountVocabulary.

(** ** Vocabulary of the progress reports *)

(** The reports of the first loop while [processed] runs from [start + 1]
    to [start + n]: one for every multiple of 100. *)
Definition reports_between (total_keys start n : nat) : list (nat * string) :=
  (λ j, (10 + (40 * j) `div` total_keys, "Parsing keys..."))
    <$> filter (λ j, j `mod` 100 = 0) (seq (S start) n).

(** The reports of a call that loads a map of [total_keys] entries, after
    the first one. *)
Definition parse_reports (total_keys : nat) : list (nat * string) :=
  reports_between total_keys 0 total_keys.

(** Handing a sequence of reports to a callback. *)
Definition replay {Obs : Type} (cb : nat → string → Obs → Obs) (obs : Obs)
    (rs : list (nat * string)) : Obs :=
  foldl (λ o r, cb r.1 r.2 o) obs rs.

(** The callback that writes its reports down. *)
Definition record_report : @callback (list (nat * string)) :=
  λ percent status seen, seen ++ [(percent, status)].

(** ** Vocabulary of the batch log *)

(** The lines that the iteration for the file of index [i] among [n] can
    write. *)
Definition batch_line (n i : nat) (filename out_p line : string) : Prop :=
  line = "Skipping (Already exists): " +:+ filename
  ∨ line = "[" +:+ pretty (i + 1) +:+ "/" +:+ pretty n +:+ "] Converted: "
           +:+ filename +:+ " -> " +:+ Str.basename out_p
  ∨ ∃ msg, line = "Failed " +:+ filename +:+ ": " +:+ msg.

(** ** Sample checkpoints (64-bit float elements) *)

Global Instance float_element : Element float := {
  zero := 0%float;
  nonzero x := negb (PrimFloat.eqb x 0%float);
  times3 x := (x * 3)%float;
}.

Definition scalar (x : float) : Tensor float := mkTensor [] [x].
Definition mat (rows cols : nat) (xs : list float) : Tensor float := mkTensor [rows; cols] xs.

(** A complete group [layer0.attention] with [h = 2], [r = 1],
    [in_features = 2]. *)
Definition layer0_group : list (string * Tensor float) :=
  [ ("layer0.attention.to_q.lora_A.weight", mat 1 2 [1; 2]%float);
    ("layer0.attention.to_q.lora_B.weight", mat 2 1 [3; 4]%float);
    ("layer0.attention.to_k.lora_A.weight", mat 1 2 [5; 6]%float);
    ("layer0.attention.to_k.lora_B.weight", mat 2 1 [7; 8]%float);
    ("layer0.attention.to_v.lora_A.weight", mat 1 2 [9; 10]%float);
    ("layer0.attention.to_v.lora_B.weight", mat 2 1 [11; 12]%float) ].

Definition demo : list (string * Tensor float) :=
  layer0_group ++
  [ ("layer0.attention.to_q.alpha", scalar 8);
    ("layer0.attention.to_out.0.lora_A.weight", mat 1 1 [13]%float);
    ("layer0.attention.to_out.0.alpha", scalar 4);
    ("layer0.norm.weight", mat 1 1 [14]%float) ].

(** A diffusers-style output projection, outside an [attention] module. *)
Definition attn_to_out : list (string * Tensor float) :=
  [ ("blocks.0.attn.to_out.0.weight", mat 1 1 [1]%float) ].

(** The alpha of an attention sub-module that is no q/k/v projection. *)
Definition gate_alpha : list (string * Tensor float) :=
  [ ("blk.attention.to_gate.alpha", scalar 1) ].

(** A key whose segment only starts with [alpha]. *)
Definition gate_alphabet : list (string * Tensor float) :=
  [ ("blk.attention.to_gate.alphabet", scalar 1) ].

(** A q-projection key without a factor segment. *)
Definition bare_to_q : list (string * Tensor float) :=
  [ ("blk.attention.to_q.weight", mat 1 1 [5]%float) ].

(** A q alpha key that is also the sibling alpha of an output-projection key. *)
Definition sibling_alpha : list (string * Tensor float) :=
  [ ("a.attention.to_q.alpha", scalar 1);
    ("a.attention.to_q.lora_A.attention.to_out.0.w", mat 1 1 [2]%float) ].

(** The complete group with a q alpha of zero. *)
Definition zero_alpha : list (string * Tensor float) :=
  layer0_group ++ [ ("layer0.attention.to_q.alpha", scalar 0) ].

(** The same, with a second alpha under the other key convention. *)
Definition zero_and_legacy_alpha : list (string * Tensor float) :=
  layer0_group ++
  [ ("layer0.attention.to_q.alpha", scalar 0);
    ("layer0.attention.to_q.lora_A.alpha", scalar 8) ].

(** The complete group with a q alpha of two elements. *)
Definition vector_alpha : list (string * Tensor float) :=
  layer0_group ++ [ ("layer0.attention.to_q.alpha", mkTensor [2] [8; 8]%float) ].

(** The end-to-end scenario of the specification: [r = 4], [in = 8],
    [h = 16], and a q alpha of 8. *)
Definition scenario : list (string * Tensor float) :=
  [ ("layer0.attention.to_q.lora_A.weight", mat 4 8 (replicate 32 1%float));
    ("layer0.attention.to_q.lora_B.weight", mat 16 4 (replicate 64 2%float));
    ("layer0.attention.to_k.lora_A.weight", mat 4 8 (replicate 32 3%float));
    ("layer0.attention.to_k.lora_B.weight", mat 16 4 (replicate 64 4%float));
    ("layer0.attention.to_v.lora_A.weight", mat 4 8 (replicate 32 5%float));
    ("layer0.attention.to_v.lora_B.weight", mat 16 4 (replicate 64 6%float));
    ("layer0.attention.to_q.alpha", scalar 8) ].

(** A q-projection key with a segment that starts with [alpha], and one
    below an output projection; neither has a factor segment. *)
Definition alphabet_candidate : list (string * Tensor float) :=
  [ ("blk.attention.to_q.alphabet.weight", mat 1 1 [5]%float) ].

Definition out_candidate : list (string * Tensor float) :=
  [ ("x.attention.to_out.0.to_q.weight", mat 1 1 [6]%float) ].

(** The slots of the group of [layer0_group]. *)
Definition layer0_qkv : @qkv float :=
  mkQkv (Some (mkFactors (Some (mat 1 2 [1; 2]%float)) (Some (mat 2 1 [3; 4]%float))))
        (Some (mkFactors (Some (mat 1 2 [5; 6]%float)) (Some (mat 2 1 [7; 8]%float))))
        (Some (mkFactors (Some (mat 1 2 [9; 10]%float)) (Some (mat 2 1 [11; 12]%float)))).

(** A map in the fused layout. *)
Definition fused_layout : list (string * Tensor float) :=
  [ ("layer0.attention.qkv.lora_A.weight", mat 3 2 [1; 2; 5; 6; 9; 10]%float);
    ("layer0.attention.qkv.alpha", scalar 24);
    ("layer0.attention.out.lora_A.weight", mat 1 1 [13]%float);
    ("layer0.norm.weight", mat 1 1 [14]%float) ].

(** A group without its v projection, with a q alpha. *)
Definition no_v_projection : list (string * Tensor float) :=
  take 4 layer0_group ++ [ ("layer0.attention.to_q.alpha", scalar 8) ].

Definition no_v_qkv : @qkv float :=
  mkQkv (Some (mkFactors (Some (mat 1 2 [1; 2]%float)) (Some (mat 2 1 [3; 4]%float))))
        (Some (mkFactors (Some (mat 1 2 [5; 6]%float)) (Some (mat 2 1 [7; 8]%float))))
        None.

(** The complete group with an alpha under the other key convention only;
    the alpha has two elements. *)
Definition legacy_alpha : list (string * Tensor float) :=
  layer0_group ++ [ ("layer0.attention.to_q.lora_A.alpha", mkTensor [2] [8; 8]%float) ].

(** The slots of a group whose k factor B is a single row. *)
Definition row_k_qkv : @qkv float :=
  mkQkv (Some (mkFactors (Some (mat 1 2 [1; 2]%float)) (Some (mat 2 1 [3; 4]%float))))
        (Some (mkFactors (Some (mat 1 2 [5; 6]%float)) (Some (mat 1 1 [7]%float))))
        (Some (mkFactors (Some (mat 1 2 [9; 10]%float)) (Some (mat 2 1 [11; 12]%float)))).

(** A disk for the two tasks: a file is the map it holds, read by the
    safetensors loader only; a save raises, without opening the file, in
    a folder that does not exist. *)
Definition sample_files : gmap string (list (string * Tensor float)) :=
  list_to_map [("/loras/style.safetensors", demo);
               ("/loras/old.pt", demo);
               ("/loras/done.safetensors", demo);
               ("/loras/done_zimage.safetensors", [])].

Definition sample_folders : gmap string (list string) :=
  list_to_map [("/loras", ["style.safetensors"; "old.pt"; "notes.txt";
                           "done.safetensors"; "done_zimage.safetensors"]);
               ("/out", [])].

Definition sample_save (fs : gmap string (list (string * Tensor float)))
    (f : @saved float) : @save_result (list (string * Tensor float)) :=
  if Str.startswith "/loras/" (saved_path f) || Str.startswith "/out/" (saved_path f)
  then Completes else Raises None.

Definition sample_gui : gui := mkGui (Int 0) [] [].

Definition sample_single :=
  run_single (elt := float) (File := list (string * Tensor float))
    Some (λ _, None) sample_save (λ m _, map_to_list m)
    (λ _, "file cannot be read") (λ _, "file cannot be written").

Definition sample_batch :=
  run_batch (elt := float) (File := list (string * Tensor float))
    Some (λ _, None) sample_save (λ m _, map_to_list m)
    (λ _, "file cannot be read") (λ _, "file cannot be written") sample_folders.

(** ** Proof automation *)

(** Decides the comparisons of a goal by linear arithmetic. *)
Ltac decide_bounds :=
  repeat match goal with
    | |- context [?x <=? ?y] => destruct (Nat.leb_spec x y); try lia
    | |- context [?x <? ?y] => destruct (Nat.ltb_spec x y); try lia
    end;
  cbn [andb].

(** Membership in a list that computes. *)
Ltac in_computed_list :=
  apply list_elem_of_In; vm_compute; tauto.

(** No entry of a list that computes has the given key. *)
Ltac not_in_computed_keys :=
  let Hin := fresh in
  intros Hin%list_elem_of_In; vm_compute in Hin;
  repeat (destruct Hin as [Hin|Hin]; [discriminate Hin|]); exact Hin.

(** Every store of a list that computes under the given key has the given value. *)
Ltac uncontested_by_computation :=
  let t := fresh "t" in let Hin := fresh in
  intros t Hin%list_elem_of_In; vm_compute in Hin;
  repeat (destruct Hin as [Hin|Hin];
          [first [discriminate Hin | by injection Hin as <-]|]);
  destruct Hin.

(** * Properties *)

(** ** Keys *)

Module StrFacts.

Lemma append_cons a s t : String a s +:+ t = String a (s +:+ t).
Proof. reflexivity. Qed.

Lemma chars_app s t : Str.chars (s +:+ t) = Str.chars s ++ Str.chars t.
Proof. induction s as [|a s IH]; [done|]. rewrite append_cons. simpl. by rewrite IH. Qed.

Lemma chars_inj s t : Str.chars s = Str.chars t → s = t.
Proof.
  intros Heq. rewrite <- (String.string_of_list_ascii_of_string s),
    <- (String.string_of_list_ascii_of_string t). unfold Str.chars in Heq. by rewrite Heq.
Qed.

Lemma chars_length s : length (Str.chars s) = String.length s.
Proof. induction s; simpl; congruence. Qed.

Lemma length_append s t : String.length (s +:+ t) = String.length s + String.length t.
Proof. rewrite <- !chars_length, chars_app. apply length_app. Qed.

(** Two keys with suffixes of the same length agree only if both the
    stems and the suffixes agree. *)
Lemma append_inj_suffix g g' s s' :
  String.length s = String.length s' → g +:+ s = g' +:+ s' → g = g' ∧ s = s'.
Proof.
  intros Hlen Heq. apply (f_equal Str.chars) in Heq. rewrite !chars_app in Heq.
  apply app_inj_2 in Heq as [??]; [|by rewrite !chars_length].
  split; by apply chars_inj.
Qed.

(** Two keys whose suffixes end in different characters differ. *)
Lemma append_ne_last g g' s s' c c' :
  last (Str.chars s) = Some c → last (Str.chars s') = Some c' → c ≠ c' → g +:+ s ≠ g' +:+ s'.
Proof.
  intros Hs Hs' Hne Heq. apply (f_equal Str.chars) in Heq. rewrite !chars_app in Heq.
  apply (f_equal last) in Heq. rewrite !last_app, Hs, Hs' in Heq. congruence.
Qed.

End StrFacts.

(** ** Stores and their effect on the output map *)

Section Writes.
Context {elt : Type} `{Element elt}.

Local Abbreviation tensor := (Tensor elt).
Local Abbreviation dict := (list (string * Tensor elt)).
Local Abbreviation out_map := (gmap string (Tensor elt)).

Lemma apply_writes_app (ws1 ws2 : list (string * tensor)) (m : out_map) :
  apply_writes (ws1 ++ ws2) m = apply_writes ws2 (apply_writes ws1 m).
Proof. apply foldl_app. Qed.

Lemma apply_writes_snoc (ws : list (string * tensor)) w (m : out_map) :
  apply_writes (ws ++ [w]) m = <[w.1 := w.2]> (apply_writes ws m).
Proof. by rewrite apply_writes_app. Qed.

Lemma apply_writes_notin (ws : list (string * tensor)) (m : out_map) key :
  key ∉ ws.*1 → apply_writes ws m !! key = m !! key.
Proof.
  induction ws as [|w ws IH] using rev_ind; [done|].
  rewrite fmap_app, apply_writes_snoc. intros [Hn Hw]%not_elem_of_app.
  rewrite lookup_insert_ne; [by apply IH|].
  intros Heq. apply Hw. rewrite <- Heq. by apply list_elem_of_singleton.
Qed.

(** A key that some store targets, all of them with the same value, ends
    up bound to that value. *)
Lemma apply_writes_uncontested (ws : list (string * tensor)) (m : out_map) key value :
  (key, value) ∈ ws → (∀ t, (key, t) ∈ ws → t = value) →
  apply_writes ws m !! key = Some value.
Proof.
  induction ws as [|[k' t'] ws IH] using rev_ind; [by intros ?%elem_of_nil|].
  intros Hin Hall. rewrite apply_writes_snoc. simpl.
  destruct (decide (k' = key)) as [->|Hne].
  - rewrite lookup_insert_eq. f_equal. apply Hall.
    apply elem_of_app. right. by apply list_elem_of_singleton.
  - rewrite lookup_insert_ne by done. apply IH.
    + apply elem_of_app in Hin as [Hin|Hin]; [done|].
      apply list_elem_of_singleton in Hin. congruence.
    + intros t Ht. apply Hall. apply elem_of_app. by left.
Qed.

Lemma apply_writes_is_Some (ws : list (string * tensor)) (m : out_map) key :
  key ∈ ws.*1 → is_Some (apply_writes ws m !! key).
Proof.
  induction ws as [|[k' t'] ws IH] using rev_ind; [by intros ?%elem_of_nil|].
  rewrite fmap_app, apply_writes_snoc. simpl. intros Hin.
  destruct (decide (k' = key)) as [->|Hne].
  - rewrite lookup_insert_eq. eauto.
  - rewrite lookup_insert_ne by done. apply IH.
    apply elem_of_app in Hin as [Hin|Hin]; [done|].
    apply list_elem_of_singleton in Hin. congruence.
Qed.

(** *** The first loop as a sequence of stores *)

Lemma parse_key_eq (lora_dict : dict) (out : out_map) gs kv :
  parse_key lora_dict (out, gs) kv
  = (apply_writes (entry_writes lora_dict kv) out, collect gs kv).
Proof.
  destruct kv as [key value].
  unfold parse_key, entry_writes, collect, entry_slot. simpl.
  destruct (Str.contains ".attention.to_out.0." key).
  { destruct (Str.contains "lora_A" key); [|done].
    by destruct (dict_get _ lora_dict). }
  destruct (Str.contains ".attention.to_" key && Str.contains ".alpha" key); [done|].
  destruct (Str.contains ".attention.to_" key && has_qkv_marker key); [|done].
  by destruct (merge_slot key) as [[[??]?]|].
Qed.

Lemma foldl_parse_key (lora_dict l : dict) (out : out_map) gs :
  foldl (parse_key lora_dict) (out, gs) l
  = (apply_writes (l ≫= entry_writes lora_dict) out, foldl collect gs l).
Proof.
  revert out gs. induction l as [|kv l IH]; intros out gs; [done|].
  cbn [foldl]. rewrite parse_key_eq, IH, bind_cons. by rewrite apply_writes_app.
Qed.

Lemma first_loop_eq (lora_dict : dict) :
  first_loop lora_dict
  = (apply_writes (lora_dict ≫= entry_writes lora_dict) ∅,
     foldl collect [] lora_dict).
Proof. apply foldl_parse_key. Qed.

(** *** The second loop as a sequence of stores *)

Lemma fuse_tensors_all_axes (d : @qkv elt) :
  is_Some (fuse_tensors d) → has_all_axes d = true.
Proof.
  intros [fused Hf]. unfold fuse_tensors, get_slot in Hf.
  unfold has_all_axes.
  destruct (at_q d), (at_k d), (at_v d); simplify_option_eq; done.
Qed.

Lemma merge_group_eq (lora_dict : dict) (out : out_map) (c : nat) g :
  merge_group lora_dict (out, c) g
  = (apply_writes (group_writes lora_dict g) out, c + group_count g.2).
Proof.
  destruct g as [base_key d].
  unfold merge_group, group_writes, group_count. simpl.
  destruct (has_all_axes d); [|by rewrite Nat.add_0_r].
  unfold fuse_group, bind, lift, store, count_one, ret.
  destruct (fuse_tensors d) as [[qkv_B qkv_A]|]; simpl; [|by rewrite Nat.add_0_r].
  rewrite Nat.add_1_r.
  destruct (first_true _ _) as [[alpha|]|]; done.
Qed.

Lemma foldl_merge_group (lora_dict : dict) gs (out : out_map) (c : nat) :
  foldl (merge_group lora_dict) (out, c) gs
  = (apply_writes (gs ≫= group_writes lora_dict) out,
     c + sum_list ((λ g, group_count g.2) <$> gs)).
Proof.
  revert out c. induction gs as [|g gs IH]; intros out c.
  { simpl. by rewrite Nat.add_0_r. }
  cbn [foldl]. rewrite merge_group_eq, IH, bind_cons, apply_writes_app, fmap_cons.
  f_equal. simpl. lia.
Qed.

(** The output map is the result of the stores, the count the number of
    groups whose factors could be fused. *)
Lemma transform_eq (lora_dict : dict) :
  transform lora_dict
  = (apply_writes (writes lora_dict) ∅,
     sum_list ((λ g, group_count g.2) <$> groups_of lora_dict)).
Proof.
  unfold transform, writes, groups_of.
  rewrite foldl_merge_group, apply_writes_app. f_equal.
  by rewrite first_loop_eq.
Qed.

(** *** Group keys are distinct *)

Lemma groups_set_keys base_key a l (value : tensor) gs :
  (groups_set base_key a l value gs).*1
  = if decide (base_key ∈ gs.*1) then gs.*1 else gs.*1 ++ [base_key].
Proof.
  induction gs as [|[g d] gs IH].
  { rewrite decide_False; [done|]. apply not_elem_of_nil. }
  cbn [groups_set]. rewrite fmap_cons. cbn [fst].
  destruct (decide (g = base_key)) as [->|Hne].
  - rewrite decide_True; [done|]. apply elem_of_cons. by left.
  - rewrite fmap_cons, IH. cbn [fst].
    destruct (decide (base_key ∈ gs.*1)) as [Hin|Hin].
    + rewrite decide_True; [done|]. apply elem_of_cons. by right.
    + rewrite decide_False; [done|].
      intros [?|?]%elem_of_cons; congruence.
Qed.

Lemma collect_NoDup gs (kv : string * tensor) : NoDup gs.*1 → NoDup (collect gs kv).*1.
Proof.
  intros Hnd. unfold collect. destruct (entry_slot kv.1) as [[[b a] l]|]; [|done].
  rewrite groups_set_keys. case_decide; [done|].
  apply NoDup_app. split_and!; [done| |apply NoDup_singleton].
  intros x Hx Hb%list_elem_of_singleton. by subst x.
Qed.

Lemma groups_of_NoDup (lora_dict : dict) : NoDup (groups_of lora_dict).*1.
Proof.
  unfold groups_of. rewrite first_loop_eq. simpl.
  assert (∀ (l : dict) gs, NoDup gs.*1 → NoDup (foldl collect gs l).*1) as Hgen.
  { induction l as [|kv l IH]; intros gs Hgs; [done|].
    simpl. apply IH. by apply collect_NoDup. }
  apply Hgen. constructor.
Qed.

End Writes.

(** ** Tensor operations *)

Section TensorFacts.
Context {elt : Type} `{Element elt}.

Lemma tabulate2_rows (cols : nat) (f : nat → nat → elt) rows a i j :
  i < rows → j < cols →
  (seq a rows ≫= λ i, f i <$> seq 0 cols) !! (i * cols + j) = Some (f (a + i) j).
Proof.
  revert a i. induction rows as [|rows IH]; intros a i Hi Hj; [lia|].
  cbn [seq]. rewrite bind_cons. destruct i as [|i].
  - rewrite lookup_app_l by (rewrite length_fmap, length_seq; lia).
    rewrite list_lookup_fmap, lookup_seq_lt by lia. simpl. do 2 f_equal. lia.
  - rewrite lookup_app_r by (rewrite length_fmap, length_seq; lia).
    rewrite length_fmap, length_seq.
    replace (S i * cols + j - cols) with (i * cols + j) by lia.
    rewrite IH by lia. do 2 f_equal. lia.
Qed.

Lemma tabulate2_lookup rows cols (f : nat → nat → elt) i j :
  i < rows → j < cols → tabulate2 rows cols f !! (i * cols + j) = Some (f i j).
Proof. intros. unfold tabulate2. by rewrite tabulate2_rows. Qed.

Lemma tabulate2_length rows cols (f : nat → nat → elt) :
  length (tabulate2 rows cols f) = rows * cols.
Proof.
  unfold tabulate2.
  assert (∀ a, length (seq a rows ≫= λ i, f i <$> seq 0 cols) = rows * cols) as Hgen;
    [|apply Hgen].
  induction rows as [|rows IH]; intros a; [done|].
  cbn [seq]. rewrite bind_cons, length_app, length_fmap, length_seq, IH. lia.
Qed.

Lemma get2_tabulate2 rows cols (f : nat → nat → elt) i j :
  i < rows → j < cols → get2 (mkTensor [rows; cols] (tabulate2 rows cols f)) i j = Some (f i j).
Proof.
  intros Hi Hj. unfold get2. simpl.
  destruct (Nat.ltb_spec j cols); [|lia]. by apply tabulate2_lookup.
Qed.

(** In a well-formed matrix every position within the shape holds an element. *)
Lemma get2_wf (t : Tensor elt) rows cols i j :
  shape t = [rows; cols] → wf t → i < rows → j < cols →
  get2 t i j = Some (nth (i * cols + j) (data t) zero).
Proof.
  intros Hs Hwf Hi Hj. unfold get2. rewrite Hs.
  destruct (Nat.ltb_spec j cols); [|lia].
  destruct (nth_lookup_or_length (data t) (i * cols + j) zero) as [->|Hlen]; [done|].
  unfold wf in Hwf. rewrite Hs in Hwf. simpl in Hwf. nia.
Qed.

Lemma zeros_wf rows cols : wf (zeros (elt:=elt) rows cols).
Proof. unfold wf. simpl. rewrite length_replicate. lia. Qed.

Lemma get2_zeros rows cols i j :
  i < rows → j < cols → get2 (zeros rows cols) i j = Some (zero : elt).
Proof.
  intros Hi Hj. unfold get2. simpl.
  destruct (Nat.ltb_spec j cols); [|lia].
  apply lookup_replicate_2. nia.
Qed.

(** Assigning a tensor of exactly the region's shape copies it. *)
Lemma broadcast_read_same (src : Tensor elt) h w i j :
  shape src = [h; w] → wf src → i < h → j < w →
  Some (broadcast_read src h w i j) = get2 src i j.
Proof.
  intros Hs Hwf Hi Hj. unfold broadcast_read.
  rewrite decide_True by done. by erewrite get2_wf.
Qed.

Lemma setitem2_get2 (dst src : Tensor elt) rows cols R C r0 h c0 w :
  shape dst = [R; C] → wf dst →
  slice_bounds rows R = (r0, h) → slice_bounds cols C = (c0, w) →
  assignable (shape src) h w = true →
  ∃ t, setitem2 dst rows cols src = Some t ∧ shape t = [R; C] ∧ wf t ∧
       ∀ i j, i < R → j < C →
         get2 t i j =
           if (r0 <=? i) && (i <? r0 + h) && (c0 <=? j) && (j <? c0 + w)
           then Some (broadcast_read src h w (i - r0) (j - c0))
           else get2 dst i j.
Proof.
  intros Hs Hwf Hr Hc Hok. unfold setitem2. rewrite Hs, Hr, Hc, Hok.
  eexists. split; [done|]. split; [done|]. split.
  { unfold wf. simpl. rewrite tabulate2_length. lia. }
  intros i j Hi Hj. rewrite get2_tabulate2 by done.
  destruct (_ && _); [done|]. by erewrite get2_wf.
Qed.

Lemma assignable_same h w : assignable [h; w] h w = true.
Proof. unfold assignable. by rewrite bool_decide_eq_true_2. Qed.

(** Concatenating three matrices with the same number of columns. *)
Lemma cat0_three (a b c : Tensor elt) ra rb rc n :
  shape a = [ra; n] → shape b = [rb; n] → shape c = [rc; n] →
  cat0 [a; b; c] = Some (mkTensor [ra + rb + rc; n] (data a ++ data b ++ data c)).
Proof.
  intros Ha Hb Hc. unfold cat0. simpl. rewrite Ha, Hb, Hc. unfold cat_shape.
  rewrite !filter_cons_True by done. rewrite filter_nil. simpl.
  rewrite !bool_decide_eq_true_2 by done. simpl.
  rewrite app_nil_r. do 3 f_equal. lia.
Qed.

End TensorFacts.

(** ** The fused factors of a group *)

Section Fusion.
Context {elt : Type} `{Element elt}.

Local Abbreviation tensor := (Tensor elt).

Lemma slice_first h : slice_bounds (None, Some h) (3 * h) = (0, h).
Proof. unfold slice_bounds. simpl. f_equal; lia. Qed.

Lemma slice_middle h : slice_bounds (Some h, Some (2 * h)) (3 * h) = (h, h).
Proof. unfold slice_bounds. simpl. f_equal; lia. Qed.

Lemma slice_last h : slice_bounds (Some (2 * h), None) (3 * h) = (2 * h, h).
Proof. unfold slice_bounds. simpl. f_equal; lia. Qed.

(** The fused factor B is block-diagonal and the fused factor A is the
    stack of the three factors A, when every factor B has shape [(h, r)]
    and every factor A has shape [(r, n)]. *)
Lemma fuse_tensors_blocks (d : @qkv elt) (qB kB vB qA kA vA : tensor) h r n :
  get_slot attn_q lora_B d = Some qB → get_slot attn_k lora_B d = Some kB →
  get_slot attn_v lora_B d = Some vB → get_slot attn_q lora_A d = Some qA →
  get_slot attn_k lora_A d = Some kA → get_slot attn_v lora_A d = Some vA →
  shape qB = [h; r] → shape kB = [h; r] → shape vB = [h; r] →
  shape qA = [r; n] → shape kA = [r; n] → shape vA = [r; n] →
  wf qB → wf kB → wf vB →
  ∃ qkv_B qkv_A,
    fuse_tensors d = Some (qkv_B, qkv_A)
    ∧ shape qkv_B = [3 * h; 3 * r]
    ∧ (∀ a b i j, a < 3 → b < 3 → i < h → j < r →
         get2 qkv_B (a * h + i) (b * r + j)
         = if decide (a = b)
           then get2 (match a with 0 => qB | 1 => kB | _ => vB end) i j
           else Some zero)
    ∧ qkv_A = mkTensor [3 * r; n] (data qA ++ data kA ++ data vA).
Proof.
  intros HqB HkB HvB HqA HkA HvA SqB SkB SvB SqA SkA SvA WqB WkB WvB.
  unfold fuse_tensors. rewrite HqB, HkB, HvB, HqA, HkA, HvA. cbn [mbind option_bind].
  rewrite SqB. cbn [mbind option_bind].
  destruct (setitem2_get2 (zeros (3 * h) (3 * r)) qB (None, Some h) (None, Some r)
              (3 * h) (3 * r) 0 h 0 r) as (t1 & -> & S1 & W1 & G1);
    [done|apply zeros_wf|apply slice_first|apply slice_first
    |rewrite SqB; apply assignable_same|].
  cbn [mbind option_bind].
  destruct (setitem2_get2 t1 kB (Some h, Some (2 * h)) (Some r, Some (2 * r))
              (3 * h) (3 * r) h h r r) as (t2 & -> & S2 & W2 & G2);
    [done|done|apply slice_middle|apply slice_middle
    |rewrite SkB; apply assignable_same|].
  cbn [mbind option_bind].
  destruct (setitem2_get2 t2 vB (Some (2 * h), None) (Some (2 * r), None)
              (3 * h) (3 * r) (2 * h) h (2 * r) r) as (t3 & -> & S3 & W3 & G3);
    [done|done|apply slice_last|apply slice_last
    |rewrite SvB; apply assignable_same|].
  cbn [mbind option_bind].
  rewrite (cat0_three qA kA vA r r r n) by done. cbn [mbind option_bind].
  eexists _, _. split; [done|]. split; [done|]. split.
  - intros a b i j Ha Hb Hi Hj.
    destruct a as [|[|[|a]]]; [| | |lia]; (destruct b as [|[|[|b]]]; [| | |lia]);
      rewrite G3, G2, G1 by lia; decide_bounds.
    all: first
      [ rewrite decide_True by done;
        erewrite <- broadcast_read_same by done; repeat f_equal; lia
      | rewrite decide_False by lia; apply get2_zeros; lia ].
  - f_equal. f_equal. lia.
Qed.

End Fusion.

(** ** The merge loop *)

Section Merge.
Context {elt : Type} `{Element elt}.

Local Abbreviation tensor := (Tensor elt).
Local Abbreviation dict := (list (string * Tensor elt)).

(** The rows of the stack of three matrices are their rows, in order. *)
Lemma get2_stack (qA kA vA : tensor) r n a i j :
  all_shaped [r; n] [qA; kA; vA] → a < 3 → i < r → j < n →
  get2 (mkTensor [3 * r; n] (data qA ++ data kA ++ data vA)) (a * r + i) j
  = get2 (pick a qA kA vA) i j.
Proof.
  intros Hall Ha Hi Hj.
  apply Forall_cons in Hall as [[Sq Wq] Hall]. apply Forall_cons in Hall as [[Sk Wk] Hall].
  apply Forall_cons in Hall as [[Sv Wv] _].
  unfold wf in *. rewrite Sq in Wq. rewrite Sk in Wk. rewrite Sv in Wv. simpl in Wq, Wk, Wv.
  unfold get2 at 1. simpl. destruct (Nat.ltb_spec j n); [|lia].
  destruct a as [|[|[|a]]]; [| | |lia]; unfold pick, get2.
  - rewrite Sq. destruct (Nat.ltb_spec j n); [|lia].
    rewrite lookup_app_l by nia. f_equal.
  - rewrite Sk. destruct (Nat.ltb_spec j n); [|lia].
    rewrite lookup_app_r by nia. rewrite lookup_app_l by nia. f_equal. nia.
  - rewrite Sv. destruct (Nat.ltb_spec j n); [|lia].
    rewrite lookup_app_r by nia. rewrite lookup_app_r by nia. f_equal. nia.
Qed.

(** The keys a group can be stored under. *)
Lemma group_writes_keys (lora_dict : dict) g k (t : tensor) :
  (k, t) ∈ group_writes lora_dict g →
  k = g.1 +:+ ".qkv.lora_B.weight" ∨ k = g.1 +:+ ".qkv.lora_A.weight"
  ∨ k = g.1 +:+ ".qkv.alpha".
Proof.
  unfold group_writes. destruct (has_all_axes g.2); [|by intros ?%elem_of_nil].
  destruct (fuse_tensors g.2) as [[qkv_B qkv_A]|]; [|by intros ?%elem_of_nil].
  rewrite !elem_of_cons. intros [[= -> ->]|[[= -> ->]|Hin]]; [by left|by right; left|].
  right; right. destruct (first_true _ _) as [[alpha|]|]; try by apply elem_of_nil in Hin.
  by apply list_elem_of_singleton in Hin as [= -> ->].
Qed.

(** Fused keys of different groups, or with different suffixes, differ. *)
Lemma fused_key_inj g g' s s' :
  s ∈ fused_suffixes → s' ∈ fused_suffixes → g +:+ s = g' +:+ s' → g = g' ∧ s = s'.
Proof.
  unfold fused_suffixes. rewrite !elem_of_cons, !elem_of_nil.
  intros [->|[->|[->|[]]]] [->|[->|[->|[]]]] Heq;
    first [ by apply StrFacts.append_inj_suffix in Heq
          | exfalso; revert Heq;
            by eapply StrFacts.append_ne_last; [reflexivity|reflexivity|] ].
Qed.

Lemma group_writes_suffix (lora_dict : dict) g k (t : tensor) :
  (k, t) ∈ group_writes lora_dict g → ∃ s, s ∈ fused_suffixes ∧ k = g.1 +:+ s.
Proof.
  intros [-> | [-> | ->] ]%group_writes_keys; eexists; (split; [|done]);
    unfold fused_suffixes; rewrite !elem_of_cons; auto.
Qed.

(** Later groups do not store under the fused keys of a group. *)
Lemma later_groups_fresh (lora_dict : dict) (gs : list (string * qkv)) g s :
  g ∉ gs.*1 → s ∈ fused_suffixes → g +:+ s ∉ (gs ≫= group_writes lora_dict).*1.
Proof.
  intros Hg Hs [[k t] [Hk Hin]]%list_elem_of_fmap. simpl in Hk. subst k.
  apply list_elem_of_bind in Hin as ([g' d'] & Hin & Hg').
  apply group_writes_suffix in Hin as (s' & Hs' & Heq). simpl in Heq.
  apply fused_key_inj in Heq as [-> _]; [|done..].
  apply Hg. apply list_elem_of_fmap. by exists (g', d').
Qed.

Lemma apply_writes_last (ws1 ws2 : list (string * tensor)) m key value :
  key ∉ ws2.*1 → apply_writes (ws1 ++ (key, value) :: ws2) m !! key = Some value.
Proof.
  intros Hn. rewrite apply_writes_app.
  change (apply_writes ((key, value) :: ws2) ?m')
    with (apply_writes ws2 (<[key := value]> m')).
  rewrite apply_writes_notin by done. apply lookup_insert_eq.
Qed.

(** What the run stores for a group whose factors fuse. *)
Lemma fused_group_stored (lora_dict : dict) g d (qkv_B qkv_A : tensor) :
  (g, d) ∈ groups_of lora_dict → fuse_tensors d = Some (qkv_B, qkv_A) →
  (transform lora_dict).1 !! (g +:+ ".qkv.lora_B.weight") = Some qkv_B
  ∧ (transform lora_dict).1 !! (g +:+ ".qkv.lora_A.weight") = Some qkv_A.
Proof.
  intros Hin Hfuse. rewrite transform_eq. cbn [fst]. unfold writes.
  pose proof (groups_of_NoDup lora_dict) as Hnd.
  apply list_elem_of_split in Hin as (gs1 & gs2 & Hsplit). rewrite Hsplit in *.
  rewrite fmap_app, fmap_cons in Hnd. apply NoDup_app in Hnd as (_ & _ & Hnd).
  apply NoDup_cons in Hnd as [Hfresh _]. cbn [fst] in Hfresh.
  rewrite bind_app, bind_cons.
  assert (has_all_axes d = true) as Haxes by (apply fuse_tensors_all_axes; eauto).
  set (alpha := match first_true (dict_get (g +:+ ".to_q.alpha") lora_dict)
                                 (dict_get (g +:+ ".to_q.lora_A.alpha") lora_dict) with
                | Some (Some t) => [(g +:+ ".qkv.alpha", mul3 t)]
                | _ => []
                end).
  assert (group_writes lora_dict (g, d)
          = (g +:+ ".qkv.lora_B.weight", qkv_B) :: (g +:+ ".qkv.lora_A.weight", qkv_A) :: alpha)
    as ->.
  { unfold group_writes. cbn [fst snd]. by rewrite Haxes, Hfuse. }
  assert (alpha.*1 ⊆ [g +:+ ".qkv.alpha"]) as Halpha.
  { subst alpha. destruct (first_true _ _) as [[?|]|]; set_solver. }
  assert (∀ s, s ∈ fused_suffixes → g +:+ s ∉ (gs2 ≫= group_writes lora_dict).*1) as Hlater.
  { intros s Hs. by apply later_groups_fresh. }
  assert (∀ s, s ∈ fused_suffixes → s ≠ ".qkv.alpha" → g +:+ s ∉ alpha.*1) as Hna.
  { intros s Hs Hne Hin. apply Halpha, list_elem_of_singleton in Hin.
    apply fused_key_inj in Hin as [_ ?]; [done|done|]. unfold fused_suffixes. set_solver. }
  set (W := lora_dict ≫= entry_writes lora_dict).
  set (G1 := gs1 ≫= group_writes lora_dict).
  set (G2 := gs2 ≫= group_writes lora_dict) in *.
  set (kB := g +:+ ".qkv.lora_B.weight"). set (kA := g +:+ ".qkv.lora_A.weight").
  split.
  - replace (W ++ G1 ++ ((kB, qkv_B) :: (kA, qkv_A) :: alpha) ++ G2)
      with ((W ++ G1) ++ (kB, qkv_B) :: ((kA, qkv_A) :: alpha ++ G2))
      by (by rewrite <- app_assoc).
    apply apply_writes_last. rewrite fmap_cons, fmap_app. cbn [fst].
    intros [Heq|[Hin|Hin]%elem_of_app]%elem_of_cons.
    + apply fused_key_inj in Heq as [_ ?]; [done|unfold fused_suffixes; set_solver..].
    + revert Hin. apply Hna; [unfold fused_suffixes; set_solver|done].
    + revert Hin. apply Hlater. unfold fused_suffixes; set_solver.
  - replace (W ++ G1 ++ ((kB, qkv_B) :: (kA, qkv_A) :: alpha) ++ G2)
      with ((W ++ G1 ++ [(kB, qkv_B)]) ++ (kA, qkv_A) :: (alpha ++ G2))
      by (by rewrite <- !app_assoc).
    apply apply_writes_last. rewrite fmap_app.
    intros [Hin|Hin]%elem_of_app.
    + revert Hin. apply Hna; [unfold fused_suffixes; set_solver|done].
    + revert Hin. apply Hlater. unfold fused_suffixes; set_solver.
Qed.

End Merge.

(** ** The fused factors in the output *)

Section FusedOutput.
Context {elt : Type} `{Element elt}.

(** C1.  For every merge group collected from the input whose six slots are
    filled, with factors B of shape [(h, r)] and factors A of shape
    [(r, n)]: the output map binds [<group_key>.qkv.lora_B.weight] to a
    tensor of shape [(3h, 3r)] whose block [(a, b)], for [a, b < 3], is the
    q, k or v factor B when [a = b] and is zero when [a ≠ b]; and it binds
    [<group_key>.qkv.lora_A.weight] to the tensor of shape [(3r, n)] whose
    rows are the rows of the q, k and v factors A, in that order.  (A finite
    map binds each key once.) *)
Theorem fused_factors_block_diagonal (lora_dict : list (string * Tensor elt))
    g d qA qB kA kB vA vB h r n :
  (g, d) ∈ groups_of lora_dict →
  group_is d qA qB kA kB vA vB →
  all_shaped [h; r] [qB; kB; vB] →
  all_shaped [r; n] [qA; kA; vA] →
  ∃ qkv_B qkv_A,
    (transform lora_dict).1 !! (g +:+ ".qkv.lora_B.weight") = Some qkv_B
    ∧ (transform lora_dict).1 !! (g +:+ ".qkv.lora_A.weight") = Some qkv_A
    ∧ shape qkv_B = [3 * h; 3 * r]
    ∧ (∀ a b i j, a < 3 → b < 3 → i < h → j < r →
         get2 qkv_B (a * h + i) (b * r + j)
         = if decide (a = b) then get2 (pick a qB kB vB) i j else Some zero)
    ∧ shape qkv_A = [3 * r; n]
    ∧ data qkv_A = data qA ++ data kA ++ data vA
    ∧ (∀ a i j, a < 3 → i < r → j < n →
         get2 qkv_A (a * r + i) j = get2 (pick a qA kA vA) i j).
Proof.
  intros Hin (HqA & HqB & HkA & HkB & HvA & HvB) HB HA.
  pose proof HA as HA'.
  apply Forall_cons in HB as [[SqB WqB] HB]. apply Forall_cons in HB as [[SkB WkB] HB].
  apply Forall_cons in HB as [[SvB WvB] _].
  apply Forall_cons in HA' as [[SqA _] HA']. apply Forall_cons in HA' as [[SkA _] HA'].
  apply Forall_cons in HA' as [[SvA _] _].
  destruct (fuse_tensors_blocks d qB kB vB qA kA vA h r n)
    as (qkv_B & qkv_A & Hfuse & Hshape & Hblocks & ->); try done.
  destruct (fused_group_stored lora_dict g d _ _ Hin Hfuse) as [HoutB HoutA].
  eexists _, _. split_and!; try done.
  intros a i j Ha Hi Hj. by apply get2_stack.
Qed.

End FusedOutput.

Lemma fused_factors_block_diagonal_witness :
  ∃ qkv_B qkv_A : Tensor float,
    (transform demo).1 !! "layer0.attention.qkv.lora_B.weight" = Some qkv_B
    ∧ (transform demo).1 !! "layer0.attention.qkv.lora_A.weight" = Some qkv_A
    ∧ shape qkv_B = [6; 3]
    ∧ shape qkv_A = [3; 2].
Proof.
  destruct (fused_factors_block_diagonal demo "layer0.attention"
              (mkQkv (Some (mkFactors (Some (mat 1 2 [1; 2]%float)) (Some (mat 2 1 [3; 4]%float))))
                     (Some (mkFactors (Some (mat 1 2 [5; 6]%float)) (Some (mat 2 1 [7; 8]%float))))
                     (Some (mkFactors (Some (mat 1 2 [9; 10]%float)) (Some (mat 2 1 [11; 12]%float)))))
              (mat 1 2 [1; 2]%float) (mat 2 1 [3; 4]%float)
              (mat 1 2 [5; 6]%float) (mat 2 1 [7; 8]%float)
              (mat 1 2 [9; 10]%float) (mat 2 1 [11; 12]%float) 2 1 2)
    as (qkv_B & qkv_A & HB & HA & SB & _ & SA & _).
  - apply list_elem_of_In. vm_compute. left. reflexivity.
  - by repeat split.
  - by repeat constructor.
  - by repeat constructor.
  - exists qkv_B, qkv_A. split_and!; [exact HB|exact HA|exact SB|exact SA].
Defined.

(** ** The returned count *)

Section Count.
Context {elt : Type} `{Element elt}.

#[local] Arguments setitem2 : simpl never.
#[local] Arguments cat0 : simpl never.
#[local] Arguments zeros : simpl never.
#[local] Arguments assignable : simpl never.
#[local] Arguments cat_shape : simpl never.

Lemma setitem2_matrix (R C : nat) (dat : list elt) rows cols (src : Tensor elt) r0 h c0 w :
  slice_bounds rows R = (r0, h) → slice_bounds cols C = (c0, w) →
  setitem2 (mkTensor [R; C] dat) rows cols src
  = if assignable (shape src) h w
    then Some (mkTensor [R; C]
                 (tabulate2 R C (λ i j,
                    if (r0 <=? i) && (i <? r0 + h) && (c0 <=? j) && (j <? c0 + w)
                    then broadcast_read src h w (i - r0) (j - c0)
                    else nth (i * C + j) dat zero)))
    else None.
Proof. intros Hr Hc. unfold setitem2. cbn [shape]. by rewrite Hr, Hc. Qed.

Lemma setitem2_shape (dst src t : Tensor elt) rows cols :
  setitem2 dst rows cols src = Some t → shape t = shape dst.
Proof.
  unfold setitem2. destruct (shape dst) as [|R [|C [|]]]; try done.
  destruct (slice_bounds rows R), (slice_bounds cols C).
  destruct (assignable _ _ _); [|done]. by intros [= <-].
Qed.

Lemma fuse_tensors_Some_iff (d : @qkv elt) :
  is_Some (fuse_tensors d) ↔ complete d && shape_compatible d = true.
Proof.
  unfold fuse_tensors, complete, shape_compatible, slot_shape. cbn [forallb fst snd].
  destruct (get_slot attn_q lora_B d) as [qB|], (get_slot attn_k lora_B d) as [kB|],
    (get_slot attn_v lora_B d) as [vB|], (get_slot attn_q lora_A d) as [qA|],
    (get_slot attn_k lora_A d) as [kA|], (get_slot attn_v lora_A d) as [vA|];
    cbn; try (split; [by intros [??]|done]).
  destruct (shape qB) as [|h [|r [|]]] eqn:SqB; cbn; try (split; [by intros [??]|done]).
  unfold zeros.
  rewrite (setitem2_matrix _ _ _ _ _ qB 0 h 0 r) by apply slice_first.
  rewrite SqB, assignable_same. cbn.
  rewrite (setitem2_matrix _ _ _ _ _ kB h h r r) by apply slice_middle.
  destruct (assignable (shape kB) h r); cbn; [|split; [by intros [??]|done]].
  rewrite (setitem2_matrix _ _ _ _ _ vB (2 * h) h (2 * r) r) by apply slice_last.
  destruct (assignable (shape vB) h r); cbn; [|split; [by intros [??]|done]].
  unfold cat0. cbn [fmap list_fmap].
  destruct (cat_shape _) as [s|]; cbn; [|split; [by intros [??]|done]].
  split; [done|eauto].
Qed.

Lemma group_count_eq (d : @qkv elt) :
  group_count d = if complete d && shape_compatible d then 1 else 0.
Proof.
  unfold group_count. pose proof (fuse_tensors_Some_iff d) as Hiff.
  pose proof (fuse_tensors_all_axes d) as Hax.
  destruct (fuse_tensors d) as [fused|].
  - rewrite Hax by eauto. by rewrite (proj1 Hiff) by eauto.
  - destruct (complete d && shape_compatible d).
    + destruct (proj2 Hiff eq_refl) as [? [=]].
    + by destruct (has_all_axes d).
Qed.


End Count.

(** ** The count, read off the input keys *)

Section CountByKeys.
Context {elt : Type} `{Element elt}.

Local Abbreviation tensor := (Tensor elt).
Local Abbreviation dict := (list (string * Tensor elt)).
Local Abbreviation groups := (list (string * @qkv elt)).

(** *** Shapes *)





(** *** Slots *)








End CountByKeys.

(** ** The whole call *)

Section Call.
Context {elt : Type} `{Element elt}.
Variables load_file torch_load : string → option (list (string * Tensor elt)).
Context {Obs : Type}.

Local Abbreviation dict := (list (string * Tensor elt)).

(** The progress reports do not touch the parsing state. *)
Lemma foldl_loop_body (lora_dict l : dict) (cb : option (@callback Obs)) total st :
  let st' := foldl (loop_body lora_dict cb total) st l in
  (output_dict st', layer_groups st')
  = foldl (parse_key lora_dict) (output_dict st, layer_groups st) l.
Proof.
  revert st. induction l as [|kv l IH]; intros st; [done|].
  cbn [foldl]. cbv zeta in IH. rewrite IH. f_equal.
  unfold loop_body. by destruct (parse_key _ _ _).
Qed.

(** On a map that loads, a call stores [transform]'s output map at
    [output_path] and returns [transform]'s count; on a path that does not
    load, it raises and writes nothing. *)
Lemma convert_lora_result input_path output_path (cb : option (@callback Obs)) obs :
  (convert_lora load_file torch_load input_path output_path cb obs).1
  = match open_checkpoint load_file torch_load input_path with
    | inl e => (inl e, None)
    | inr lora_dict =>
        (inr (transform lora_dict).2,
         Some (mkSaved output_path (transform lora_dict).1 metadata))
    end.
Proof.
  unfold convert_lora. destruct (open_checkpoint _ _ _) as [e|lora_dict]; [done|].
  set (st := foldl _ _ _).
  pose proof (foldl_loop_body lora_dict lora_dict cb (length lora_dict)
                (mkLoop 0 ∅ [] (match cb with
                                 | Some f => f 0 ("Loading: " +:+ Str.basename input_path) obs
                                 | None => obs
                                 end))) as Hst.
  cbv zeta in Hst. fold st in Hst. cbn [output_dict layer_groups] in Hst.
  unfold transform, first_loop. rewrite <- Hst. cbn [fst snd].
  by destruct (foldl (merge_group lora_dict) _ _).
Qed.

(** C8.  On an input path that ends in none of the recognised extensions
    the call raises ValueError, whatever the load primitives would return
    and whatever the callback is, and writes no file. *)
Theorem unsupported_extension_raises input_path output_path (cb : option (@callback Obs)) obs :
  Str.endswith ".safetensors" input_path = false →
  Str.endswith ".pt" input_path = false →
  Str.endswith ".pth" input_path = false →
  (convert_lora load_file torch_load input_path output_path cb obs).1
  = (inl (ValueError "Unsupported file format"), None).
Proof.
  intros H1 H2 H3. rewrite convert_lora_result. unfold open_checkpoint.
  by rewrite H1, H2, H3.
Qed.

(** C9.  A call with a progress callback and a call without one raise the
    same exception or return the same count, and write the same file, for
    every callback (an observer with a state of its own), every input and
    every initial state of the observer. *)
Theorem progress_callback_noninterference input_path output_path
    (cb : @callback Obs) (obs obs' : Obs) :
  (convert_lora load_file torch_load input_path output_path (Some cb) obs).1
  = (convert_lora load_file torch_load input_path output_path None obs').1.
Proof. by rewrite !convert_lora_result. Qed.

End Call.

Lemma unsupported_extension_raises_witness :
  (convert_lora (λ _, Some demo) (λ _, Some demo) "lora/model.ckpt" "out.safetensors"
     (Some (λ percent status (log : list (nat * string)), (percent, status) :: log)) []).1
  = (inl (ValueError "Unsupported file format"), None).
Proof. by apply unsupported_extension_raises. Defined.

(** ** Renaming shortens a key *)

Module ReplaceFacts.

Lemma startswith_length p s : Str.startswith p s = true → String.length p ≤ String.length s.
Proof.
  revert s. induction p as [|a p IH]; intros [|b s]; simpl; try done; try lia.
  destruct (Ascii.eqb a b); [|done]. intros Hp%IH. lia.
Qed.

(** Each replaced occurrence changes the length by [|old| - |new|]. *)
Lemma replace_go_length old new skip s :
  old ≠ "" → String.length new ≤ String.length old →
  ∃ n, String.length (Str.replace_go old new skip s)
       + (String.length old - String.length new) * n
       = String.length s - skip.
Proof.
  intros Hold Hnew. revert skip. induction s as [|c s IH]; intros skip.
  { exists 0. simpl. lia. }
  cbn [Str.replace_go]. destruct skip as [|k].
  - destruct (Str.startswith old (String c s)) eqn:Hp.
    + apply startswith_length in Hp. destruct (IH (String.length old - 1)) as [n Hn].
      exists (S n). rewrite StrFacts.length_append.
      destruct old as [|a old]; [done|]. cbn [String.length] in *. lia.
    + destruct (IH 0) as [n Hn]. exists n. cbn [String.length]. lia.
  - destruct (IH k) as [n Hn]. exists n. cbn [String.length]. lia.
Qed.

Lemma replace_go_shorter old new skip s :
  old ≠ "" → String.length new ≤ String.length old →
  String.length (Str.replace_go old new skip s) ≤ String.length s - skip.
Proof.
  intros Hold Hnew. destruct (replace_go_length old new skip s Hold Hnew) as [n Hn].
  revert Hn. generalize ((String.length old - String.length new) * n). lia.
Qed.

(** A key in which [old] occurs gets strictly shorter. *)
Lemma replace_strictly_shorter old new s :
  String.length new < String.length old → Str.contains old s = true →
  String.length (Str.replace old new s) < String.length s.
Proof.
  intros Hnew. assert (old ≠ "") as Hold by (intros ->; simpl in Hnew; lia).
  unfold Str.replace. induction s as [|c s IH].
  { destruct old; [done|]. simpl. done. }
  cbn [Str.contains Str.replace_go].
  destruct (Str.startswith old (String c s)) eqn:Hp.
  - intros _. apply startswith_length in Hp.
    pose proof (replace_go_shorter old new (String.length old - 1) s Hold) as Hle.
    rewrite StrFacts.length_append. cbn [String.length] in *. lia.
  - cbn [orb]. intros Hc%IH. cbn [String.length]. lia.
Qed.

Lemma startswith_app_contains a b s :
  Str.startswith (a +:+ b) s = true → Str.contains b s = true.
Proof.
  revert s. induction a as [|c a IH]; intros s.
  { change ("" +:+ b) with b. intros Hp. destruct s; simpl in *; by rewrite Hp. }
  rewrite StrFacts.append_cons. destruct s as [|c' s]; [done|]. cbn [Str.startswith].
  destruct (Ascii.eqb c c'); [|done]. intros Hp%IH. cbn [Str.contains].
  rewrite Hp. apply orb_true_r.
Qed.

(** A key that contains [a ++ b] contains [b]. *)
Lemma contains_app_r a b s :
  Str.contains (a +:+ b) s = true → Str.contains b s = true.
Proof.
  induction s as [|c s IH].
  { simpl. rewrite orb_false_r. apply startswith_app_contains. }
  cbn [Str.contains]. intros [Hp|Hc]%orb_true_iff.
  - by apply startswith_app_contains in Hp.
  - rewrite (IH Hc). apply orb_true_r.
Qed.

(** The head cut off by [rsplit] leaves room for the separator. *)
Lemma rfind_head_length sep s h :
  Str.rfind_head sep s = Some h → String.length h + String.length sep ≤ String.length s.
Proof.
  revert h. induction s as [|c s IH]; intros h; cbn [Str.rfind_head].
  - destruct (Str.startswith sep "") eqn:Hp; [|done]. intros [= <-].
    apply startswith_length in Hp. simpl in *. lia.
  - destruct (Str.rfind_head sep s) as [h'|].
    + intros [= <-]. specialize (IH h' eq_refl). cbn [String.length]. lia.
    + destruct (Str.startswith sep (String c s)) eqn:Hp; [|done]. intros [= <-].
      apply startswith_length in Hp. simpl in *. lia.
Qed.

(** A renamed key is never the key it was made from. *)
Lemma rename_out_ne key :
  Str.contains ".attention.to_out.0." key = true → rename_out key ≠ key.
Proof.
  intros Hc Heq.
  assert (Str.contains ".to_out.0." key = true) as Hc'
    by (by apply (contains_app_r ".attention" ".to_out.0.")).
  apply (replace_strictly_shorter ".to_out.0." ".out.") in Hc'; [|simpl; lia].
  unfold rename_out in Heq. rewrite Heq in Hc'. lia.
Qed.

(** Nor is the renamed sibling alpha key. *)
Lemma rename_alpha_ne key :
  rename_out (Str.rsplit1_head ".lora_A" key +:+ ".alpha") ≠ key.
Proof.
  intros Heq. apply (f_equal String.length) in Heq. unfold rename_out, Str.replace in Heq.
  destruct (replace_go_length ".to_out.0." ".out." 0
              (Str.rsplit1_head ".lora_A" key +:+ ".alpha")) as [n Hn]; [done|simpl; lia|].
  rewrite Heq, StrFacts.length_append in Hn. unfold Str.rsplit1_head in Hn.
  destruct (Str.rfind_head ".lora_A" key) as [h|] eqn:Hh; simpl in Hn.
  - apply rfind_head_length in Hh. simpl in Hh. lia.
  - lia.
Qed.

End ReplaceFacts.

(** ** The classification loop *)

Section Classification.
Context {elt : Type} `{Element elt}.

Local Abbreviation tensor := (Tensor elt).
Local Abbreviation dict := (list (string * Tensor elt)).

Lemma entry_writes_in_writes (lora_dict : dict) kv w :
  kv ∈ lora_dict → w ∈ entry_writes lora_dict kv → w ∈ writes lora_dict.
Proof.
  intros Hkv Hw. unfold writes. apply elem_of_app. left.
  apply list_elem_of_bind. eauto.
Qed.

(** A store comes from an entry named [key] or is one of the other stores. *)
Lemma writes_split (lora_dict : dict) key w :
  w ∈ writes lora_dict →
  (∃ value, (key, value) ∈ lora_dict ∧ w ∈ entry_writes lora_dict (key, value))
  ∨ w ∈ other_writes lora_dict key.
Proof.
  unfold writes, other_writes. intros [Hw|Hw]%elem_of_app.
  - apply list_elem_of_bind in Hw as ([k v] & Hw & Hkv).
    destruct (decide (k = key)) as [->|Hne]; [left; eauto|].
    right. apply elem_of_app. left. apply list_elem_of_bind.
    exists (k, v). split; [done|]. by apply list_elem_of_filter.
  - right. apply elem_of_app. by right.
Qed.

Lemma output_uncontested (lora_dict : dict) key value :
  (key, value) ∈ writes lora_dict → uncontested lora_dict key value →
  (transform lora_dict).1 !! key = Some value.
Proof. intros Hin Hun. rewrite transform_eq. by apply apply_writes_uncontested. Qed.

Lemma output_stored (lora_dict : dict) key value :
  (key, value) ∈ writes lora_dict → is_Some ((transform lora_dict).1 !! key).
Proof.
  intros Hin. rewrite transform_eq. apply apply_writes_is_Some.
  apply list_elem_of_fmap. by exists (key, value).
Qed.

Lemma output_absent (lora_dict : dict) key :
  key ∉ (writes lora_dict).*1 → (transform lora_dict).1 !! key = None.
Proof. intros Hn. rewrite transform_eq. cbn [fst]. by rewrite apply_writes_notin. Qed.

(** A key that its own entries do not store under, and nothing else does,
    is not in the output. *)
Lemma output_absent_others (lora_dict : dict) key :
  (∀ value, key ∉ (entry_writes lora_dict (key, value)).*1) →
  key ∉ (other_writes lora_dict key).*1 →
  (transform lora_dict).1 !! key = None.
Proof.
  intros Hown Hother. apply output_absent.
  intros ([k t] & Hk & [(value & _ & Hw)|Hw]%(writes_split _ key))%list_elem_of_fmap;
    simpl in Hk; subst k.
  - apply (Hown value). apply list_elem_of_fmap. by exists (key, t).
  - apply Hother. apply list_elem_of_fmap. by exists (key, t).
Qed.

(** C5, as the code has it.  The marker the loop tests is
    [.attention.to_out.0.], and what it replaces is [.to_out.0.] by
    [.out.].  For every input key that contains the marker: its entry is
    stored under the renamed key, with the same tensor, and under nothing
    that equals the original key.  Hence the output map binds the renamed
    key to that tensor, unless another store of the run puts a different
    tensor under the renamed key; and the original key is absent from the
    output, unless another entry or a fused group produces that very name. *)
Theorem out_projection_renamed (lora_dict : dict) key value :
  (key, value) ∈ lora_dict →
  Str.contains ".attention.to_out.0." key = true →
  head (entry_writes lora_dict (key, value)) = Some (rename_out key, value)
  ∧ rename_out key ≠ key
  ∧ (uncontested lora_dict (rename_out key) value →
     (transform lora_dict).1 !! rename_out key = Some value)
  ∧ (key ∉ (other_writes lora_dict key).*1 →
     (transform lora_dict).1 !! key = None).
Proof.
  intros Hin Hc.
  assert (∀ v, entry_writes lora_dict (key, v)
               = (rename_out key, v) ::
                 (if Str.contains "lora_A" key then
                    match dict_get (Str.rsplit1_head ".lora_A" key +:+ ".alpha") lora_dict with
                    | Some alpha =>
                        [(rename_out (Str.rsplit1_head ".lora_A" key +:+ ".alpha"), alpha)]
                    | None => []
                    end
                  else [])) as Hew.
  { intros v. unfold entry_writes. cbn [fst snd]. by rewrite Hc. }
  split_and!.
  - by rewrite Hew.
  - by apply ReplaceFacts.rename_out_ne.
  - apply output_uncontested. apply (entry_writes_in_writes _ (key, value)); [done|].
    rewrite Hew. apply elem_of_cons. by left.
  - apply output_absent_others. intros v. rewrite Hew, fmap_cons. cbn [fst].
    intros [Heq|Hal]%elem_of_cons.
    + by apply (ReplaceFacts.rename_out_ne key).
    + destruct (Str.contains "lora_A" key); [|by apply elem_of_nil in Hal].
      destruct (dict_get _ lora_dict); [|by apply elem_of_nil in Hal].
      apply list_elem_of_singleton in Hal. simpl in Hal.
      by apply (ReplaceFacts.rename_alpha_ne key).
Qed.

(** C6, as the code has it.  A key is passed through when it contains
    neither the output-projection marker nor a q/k/v marker and is not an
    attention alpha key (one that contains both [.attention.to_] and
    [.alpha], which the loop drops): its entry is stored under the key
    itself and captured by no merge group, so the key is in the output map;
    it is bound there to the input tensor, unless another store of the run
    puts a different tensor under that key. *)
Theorem unmarked_key_passthrough (lora_dict : dict) key value :
  (key, value) ∈ lora_dict →
  Str.contains ".attention.to_out.0." key = false →
  has_qkv_marker key = false →
  Str.contains ".attention.to_" key && Str.contains ".alpha" key = false →
  entry_writes lora_dict (key, value) = [(key, value)]
  ∧ entry_slot key = None
  ∧ is_Some ((transform lora_dict).1 !! key)
  ∧ (uncontested lora_dict key value → (transform lora_dict).1 !! key = Some value).
Proof.
  intros Hin Hout Hqkv Halpha.
  assert (entry_slot key = None) as Hslot.
  { unfold entry_slot. rewrite Hout, Halpha, Hqkv. by rewrite andb_false_r. }
  assert (entry_writes lora_dict (key, value) = [(key, value)]) as Hew.
  { unfold entry_writes. cbn [fst snd]. by rewrite Hout, Halpha, Hslot. }
  assert ((key, value) ∈ writes lora_dict) as Hw.
  { apply (entry_writes_in_writes _ (key, value)); [done|].
    rewrite Hew. by apply list_elem_of_singleton. }
  split_and!; [done|done|by eapply output_stored|by apply output_uncontested].
Qed.

(** No axis segment, or no factor segment: no merge slot. *)
Lemma merge_slot_None key :
  Forall (λ p, attn_of_part p = None) (Str.split "." key)
  ∨ Forall (λ p, lora_of_part p = None) (Str.split "." key) →
  merge_slot key = None.
Proof.
  assert (∀ {A} (f : string → option A) l, Forall (λ p, f p = None) l → omap f l = []) as Hnone.
  { intros A f l. induction 1 as [|p l Hp _ IH]; [done|]. cbn. by rewrite Hp, IH. }
  unfold merge_slot. intros [Ha|Hl].
  - by rewrite (Hnone _ _ _ Ha).
  - rewrite (Hnone _ _ _ Hl). by destruct (head _).
Qed.

(** C7.  A key that reaches the merge-candidate test (neither the
    output-projection rule nor the alpha rule applied) and matches it, but
    in which no segment is [to_q], [to_k] or [to_v], or no segment is
    [lora_A] or [lora_B]: the classification is a total function (nothing
    raises) and the step stores the entry under its own key and leaves the
    merge groups alone, so the key is in the output map rather than dropped;
    it is bound there to the input tensor unless a later store of the run
    puts another tensor under that key. *)
Theorem malformed_candidate_passthrough (lora_dict : dict) key value :
  (key, value) ∈ lora_dict →
  Str.contains ".attention.to_out.0." key = false →
  Str.contains ".attention.to_" key && Str.contains ".alpha" key = false →
  Str.contains ".attention.to_" key && has_qkv_marker key = true →
  Forall (λ p, attn_of_part p = None) (Str.split "." key)
  ∨ Forall (λ p, lora_of_part p = None) (Str.split "." key) →
  (∀ out gs, parse_key lora_dict (out, gs) (key, value) = (<[key := value]> out, gs))
  ∧ is_Some ((transform lora_dict).1 !! key)
  ∧ (uncontested lora_dict key value → (transform lora_dict).1 !! key = Some value).
Proof.
  intros Hin Hout Halpha Hcand Hparts. apply merge_slot_None in Hparts.
  assert (entry_slot key = None) as Hslot.
  { unfold entry_slot. by rewrite Hout, Halpha, Hcand. }
  assert (entry_writes lora_dict (key, value) = [(key, value)]) as Hew.
  { unfold entry_writes. cbn [fst snd]. by rewrite Hout, Halpha, Hslot. }
  assert ((key, value) ∈ writes lora_dict) as Hw.
  { apply (entry_writes_in_writes _ (key, value)); [done|].
    rewrite Hew. by apply list_elem_of_singleton. }
  split_and!; [|by eapply output_stored|by apply output_uncontested].
  intros out gs. rewrite parse_key_eq, Hew. unfold collect. cbn [fst snd]. by rewrite Hslot.
Qed.

(** C10, as the code has it.  For every input key that contains
    [.attention.to_] and [.alpha] and not [.attention.to_out.0.] -- whatever
    the attention sub-module, and also when [.alpha] only starts a longer
    segment -- the step stores nothing and captures nothing.  Hence the key
    is absent from the output, unless another entry or a fused group
    produces that very name. *)
Theorem attention_alpha_skipped (lora_dict : dict) key value :
  (key, value) ∈ lora_dict →
  Str.contains ".attention.to_" key = true →
  Str.contains ".alpha" key = true →
  Str.contains ".attention.to_out.0." key = false →
  (∀ out gs, parse_key lora_dict (out, gs) (key, value) = (out, gs))
  ∧ (key ∉ (other_writes lora_dict key).*1 → (transform lora_dict).1 !! key = None).
Proof.
  intros Hin Hatt Halpha Hout.
  assert (∀ v, entry_writes lora_dict (key, v) = []) as Hew.
  { intros v. unfold entry_writes. cbn [fst snd]. by rewrite Hout, Hatt, Halpha. }
  split.
  - intros out gs. rewrite parse_key_eq, Hew. unfold collect, entry_slot. cbn [fst snd].
    by rewrite Hout, Hatt, Halpha.
  - apply output_absent_others. intros v. rewrite Hew. apply not_elem_of_nil.
Qed.

End Classification.

(** ** The classification on sample checkpoints *)

Lemma out_projection_renamed_witness :
  (transform demo).1 !! "layer0.attention.out.lora_A.weight" = Some (mat 1 1 [13]%float)
  ∧ (transform demo).1 !! "layer0.attention.to_out.0.lora_A.weight" = None.
Proof.
  destruct (out_projection_renamed demo "layer0.attention.to_out.0.lora_A.weight"
              (mat 1 1 [13]%float)) as (_ & _ & Hnew & Hold).
  - in_computed_list.
  - reflexivity.
  - split.
    + apply Hnew. uncontested_by_computation.
    + apply Hold. not_in_computed_keys.
Defined.

(** C5, as stated, fails: a key that contains [to_out.0] outside an
    [attention] module is passed through under its own name, and the name
    with [to_out.0] replaced by [out] is not in the output. *)
Lemma to_out_without_attention_kept :
  Str.contains "to_out.0" "blocks.0.attn.to_out.0.weight" = true
  ∧ (transform attn_to_out).1 !! "blocks.0.attn.to_out.0.weight" = Some (mat 1 1 [1]%float)
  ∧ (transform attn_to_out).1 !! "blocks.0.attn.out.weight" = None.
Proof. by vm_compute. Qed.

Lemma unmarked_key_passthrough_witness :
  is_Some ((transform demo).1 !! "layer0.norm.weight")
  ∧ (transform demo).1 !! "layer0.norm.weight" = Some (mat 1 1 [14]%float).
Proof.
  destruct (unmarked_key_passthrough demo "layer0.norm.weight" (mat 1 1 [14]%float))
    as (_ & _ & Hin & Hval).
  - in_computed_list.
  - reflexivity.
  - reflexivity.
  - reflexivity.
  - split; [exact Hin|]. apply Hval. uncontested_by_computation.
Defined.

(** C6, as stated, fails: a key with no q/k/v marker and no
    output-projection marker is dropped when it contains [.attention.to_]
    and [.alpha]. *)
Lemma gate_alpha_dropped :
  has_qkv_marker "blk.attention.to_gate.alpha" = false
  ∧ Str.contains "to_q" "blk.attention.to_gate.alpha" = false
  ∧ Str.contains "to_k" "blk.attention.to_gate.alpha" = false
  ∧ Str.contains "to_v" "blk.attention.to_gate.alpha" = false
  ∧ Str.contains "to_out.0" "blk.attention.to_gate.alpha" = false
  ∧ (transform gate_alpha).1 !! "blk.attention.to_gate.alpha" = None.
Proof. by vm_compute. Qed.

Lemma malformed_candidate_passthrough_witness :
  (∀ out gs, parse_key bare_to_q (out, gs) ("blk.attention.to_q.weight", mat 1 1 [5]%float)
             = (<["blk.attention.to_q.weight" := mat 1 1 [5]%float]> out, gs))
  ∧ is_Some ((transform bare_to_q).1 !! "blk.attention.to_q.weight")
  ∧ (transform bare_to_q).1 !! "blk.attention.to_q.weight" = Some (mat 1 1 [5]%float).
Proof.
  destruct (malformed_candidate_passthrough bare_to_q "blk.attention.to_q.weight"
              (mat 1 1 [5]%float)) as (Hstep & Hin & Hval).
  - in_computed_list.
  - reflexivity.
  - reflexivity.
  - reflexivity.
  - right. compute_done.
  - split_and!; [exact Hstep|exact Hin|]. apply Hval. uncontested_by_computation.
Defined.

(** C7, as stated, fails: a key that matches the merge-candidate pattern
    and has no factor segment is dropped when it also contains [.alpha],
    and renamed when it contains the output-projection marker; in both
    cases the key is not in the output map. *)
Lemma malformed_candidate_dropped :
  (Str.contains ".attention.to_" "blk.attention.to_q.alphabet.weight"
   && has_qkv_marker "blk.attention.to_q.alphabet.weight" = true
   ∧ omap lora_of_part (Str.split "." "blk.attention.to_q.alphabet.weight") = []
   ∧ (transform alphabet_candidate).1 !! "blk.attention.to_q.alphabet.weight" = None
   ∧ (transform alphabet_candidate).1 = ∅)
  ∧ (Str.contains ".attention.to_" "x.attention.to_out.0.to_q.weight"
     && has_qkv_marker "x.attention.to_out.0.to_q.weight" = true
     ∧ omap lora_of_part (Str.split "." "x.attention.to_out.0.to_q.weight") = []
     ∧ (transform out_candidate).1 !! "x.attention.to_out.0.to_q.weight" = None
     ∧ (transform out_candidate).1 !! "x.attention.out.to_q.weight"
       = Some (mat 1 1 [6]%float)).
Proof. by vm_compute. Qed.

Lemma attention_alpha_skipped_witness :
  (∀ out gs, parse_key gate_alphabet (out, gs) ("blk.attention.to_gate.alphabet", scalar 1)
             = (out, gs))
  ∧ (transform gate_alphabet).1 !! "blk.attention.to_gate.alphabet" = None.
Proof.
  destruct (attention_alpha_skipped gate_alphabet "blk.attention.to_gate.alphabet" (scalar 1))
    as (Hstep & Habsent).
  - in_computed_list.
  - reflexivity.
  - reflexivity.
  - reflexivity.
  - split; [exact Hstep|]. apply Habsent. not_in_computed_keys.
Defined.

(** C10, as stated, fails: an attention alpha key is in the output, under
    its own name and with its own tensor, when an output-projection key
    names it as its sibling alpha. *)
Lemma sibling_alpha_emitted :
  Str.contains ".attention.to_" "a.attention.to_q.alpha" = true
  ∧ Str.contains ".alpha" "a.attention.to_q.alpha" = true
  ∧ Str.contains ".attention.to_out.0." "a.attention.to_q.alpha" = false
  ∧ (transform sibling_alpha).1 !! "a.attention.to_q.alpha" = Some (scalar 1).
Proof. by vm_compute. Qed.

(** ** The fused alpha, and groups that do not fuse *)

Section Alpha.
Context {elt : Type} `{Element elt}.

Local Abbreviation tensor := (Tensor elt).
Local Abbreviation dict := (list (string * Tensor elt)).

(** A one-element alpha that is not zero is the one taken. *)
Lemma first_true_nonzero (t : tensor) x (b : option tensor) :
  data t = [x] → nonzero x = true → first_true (Some t) b = Some (Some t).
Proof. intros Hd Hx. unfold first_true, tensor_bool. rewrite Hd. cbn. by rewrite Hx. Qed.

(** A one-element alpha that is zero is passed over for the second lookup. *)
Lemma first_true_zero (t : tensor) x (b : option tensor) :
  data t = [x] → nonzero x = false → first_true (Some t) b = Some b.
Proof. intros Hd Hx. unfold first_true, tensor_bool. rewrite Hd. cbn. by rewrite Hx. Qed.

(** An alpha of several elements has no truth value: the lookup raises. *)
Lemma first_true_ambiguous (t : tensor) x y l (b : option tensor) :
  data t = x :: y :: l → first_true (Some t) b = None.
Proof. intros Hd. unfold first_true, tensor_bool. by rewrite Hd. Qed.

(** The alpha the lookup yields is stored, times three, for a group that fuses. *)
Lemma fused_alpha_stored (lora_dict : dict) g d (alpha : tensor) :
  (g, d) ∈ groups_of lora_dict → is_Some (fuse_tensors d) →
  first_true (dict_get (g +:+ ".to_q.alpha") lora_dict)
             (dict_get (g +:+ ".to_q.lora_A.alpha") lora_dict) = Some (Some alpha) →
  (transform lora_dict).1 !! (g +:+ ".qkv.alpha") = Some (mul3 alpha).
Proof.
  intros Hin [[qkv_B qkv_A] Hfuse] Halpha. rewrite transform_eq. cbn [fst]. unfold writes.
  pose proof (groups_of_NoDup lora_dict) as Hnd.
  apply list_elem_of_split in Hin as (gs1 & gs2 & Hsplit). rewrite Hsplit in *.
  rewrite fmap_app, fmap_cons in Hnd. apply NoDup_app in Hnd as (_ & _ & Hnd).
  apply NoDup_cons in Hnd as [Hfresh _]. cbn [fst] in Hfresh.
  rewrite bind_app, bind_cons.
  assert (group_writes lora_dict (g, d)
          = [(g +:+ ".qkv.lora_B.weight", qkv_B); (g +:+ ".qkv.lora_A.weight", qkv_A)]
            ++ [(g +:+ ".qkv.alpha", mul3 alpha)]) as ->.
  { unfold group_writes. cbn [fst snd].
    rewrite (fuse_tensors_all_axes d) by eauto. by rewrite Hfuse, Halpha. }
  rewrite <- !app_assoc, !app_assoc, <- (app_assoc _ [_] (gs2 ≫= _)).
  apply apply_writes_last. apply later_groups_fresh; [done|].
  unfold fused_suffixes. set_solver.
Qed.

(** A group with an empty slot, or with shapes that do not fit, stores
    nothing and is not counted. *)
Lemma unfused_group_contributes_nothing (lora_dict : dict) g (d : @qkv elt) :
  complete d && shape_compatible d = false →
  group_writes lora_dict (g, d) = [] ∧ group_count d = 0.
Proof.
  intros Hd. rewrite group_count_eq, Hd. split; [|done].
  unfold group_writes. cbn [fst snd]. destruct (has_all_axes d); [|done].
  destruct (fuse_tensors d) as [fused|] eqn:Hfuse; [|done].
  assert (complete d && shape_compatible d = true) by (apply fuse_tensors_Some_iff; eauto).
  congruence.
Qed.

(** An entry captured into a merge group is not stored by the first loop. *)
Lemma captured_entry_not_stored (lora_dict : dict) key value :
  is_Some (entry_slot key) → entry_writes lora_dict (key, value) = [].
Proof.
  intros [slot Hslot]. unfold entry_writes. cbn [fst snd]. rewrite Hslot.
  unfold entry_slot in Hslot.
  destruct (Str.contains ".attention.to_out.0." key); [done|].
  by destruct (Str.contains ".attention.to_" key && Str.contains ".alpha" key).
Qed.

End Alpha.

(** C3 on the code: a q alpha of zero.  The group fuses and is counted, but
    the zero alpha counts as absent: no [.qkv.alpha] is stored; and when the
    second key convention is present too, its value is the one rescaled. *)
Lemma zero_alpha_not_rescaled :
  (transform zero_alpha).2 = 1
  ∧ is_Some ((transform zero_alpha).1 !! "layer0.attention.qkv.lora_B.weight")
  ∧ (transform zero_alpha).1 !! "layer0.attention.qkv.alpha" = None
  ∧ (transform zero_and_legacy_alpha).1 !! "layer0.attention.qkv.alpha" = Some (scalar 24).
Proof. vm_compute. split_and!; eauto. Qed.

(** C4 on the code: a q alpha of two elements.  Taking its truth value
    raises inside the [try] block, after the fused factors were stored and
    counted: the group whose fusion failed is in the output and in the count. *)
Lemma vector_alpha_group_half_fused :
  first_true (dict_get "layer0.attention.to_q.alpha" vector_alpha)
             (dict_get "layer0.attention.to_q.lora_A.alpha" vector_alpha) = None
  ∧ (transform vector_alpha).2 = 1
  ∧ is_Some ((transform vector_alpha).1 !! "layer0.attention.qkv.lora_B.weight")
  ∧ is_Some ((transform vector_alpha).1 !! "layer0.attention.qkv.lora_A.weight")
  ∧ (transform vector_alpha).1 !! "layer0.attention.qkv.alpha" = None.
Proof. vm_compute. split_and!; eauto. Qed.

(** ** The string methods and the scenario of the specification, evaluated *)

Example replace_all_occurrences :
  rename_out "a.attention.to_out.0.b.to_out.0.c" = "a.attention.out.b.out.c".
Proof. reflexivity. Qed.

Example replace_does_not_overlap :
  Str.replace ".to_out.0." ".out." "x.to_out.0.to_out.0.y" = "x.out.to_out.0.y".
Proof. reflexivity. Qed.

Example rsplit_takes_last_occurrence :
  Str.rsplit1_head ".lora_A" "m.lora_A.n.lora_A.weight" = "m.lora_A.n"
  ∧ Str.rsplit1_head ".lora_A" "m.lora_B.weight" = "m.lora_B.weight".
Proof. split; reflexivity. Qed.

Example split_keeps_empty_segments :
  Str.split "." "a..b." = ["a"; ""; "b"; ""].
Proof. reflexivity. Qed.

Example merge_slot_of_a_factor_key :
  merge_slot "diffusion_model.layers.3.attention.to_k.lora_B.weight"
  = Some ("diffusion_model.layers.3.attention", attn_k, lora_B).
Proof. reflexivity. Qed.

Example scenario_of_the_specification :
  (shape <$> (transform scenario).1 !! "layer0.attention.qkv.lora_A.weight") = Some [12; 8]
  ∧ (shape <$> (transform scenario).1 !! "layer0.attention.qkv.lora_B.weight") = Some [48; 12]
  ∧ (transform scenario).1 !! "layer0.attention.qkv.alpha" = Some (scalar 24)
  ∧ (transform scenario).2 = 1.
Proof. by vm_compute. Qed.

Example slots_named_by_the_keys :
  slot_tensor demo "layer0.attention" attn_k lora_B = Some (mat 2 1 [7; 8]%float)
  ∧ slot_tensor no_v_projection "layer0.attention" attn_v lora_A = None
  ∧ slot_tensor demo "layer0" attn_q lora_A = None
  ∧ (transform demo).2 = 1 ∧ (transform no_v_projection).2 = 0.
Proof. by vm_compute. Qed.

(** ** The progress reports of a call *)

Section Reports.
Context {elt : Type} `{Element elt}.
Variables load_file torch_load : string → option (list (string * Tensor elt)).
Context {Obs : Type}.

Local Abbreviation dict := (list (string * Tensor elt)).

Lemma loop_body_processed (lora_dict : dict) (cb : option (@callback Obs)) total st kv :
  processed (loop_body lora_dict cb total st kv) = S (processed st).
Proof. unfold loop_body. by destruct (parse_key _ _ _). Qed.

Lemma loop_body_observer (lora_dict : dict) (cb : @callback Obs) total st kv :
  observer (loop_body lora_dict (Some cb) total st kv)
  = if S (processed st) `mod` 100 =? 0
    then cb (10 + (40 * S (processed st)) `div` total) "Parsing keys..." (observer st)
    else observer st.
Proof. unfold loop_body. by destruct (parse_key _ _ _). Qed.

Lemma foldl_loop_body_observer (lora_dict l : dict) (cb : @callback Obs) total st :
  observer (foldl (loop_body lora_dict (Some cb) total) st l)
  = replay cb (observer st) (reports_between total (processed st) (length l)).
Proof.
  revert st. induction l as [|kv l IH]; intros st; [done|].
  cbn [foldl length]. rewrite IH, loop_body_processed, loop_body_observer.
  unfold reports_between. cbn [seq]. rewrite filter_cons.
  destruct (Nat.eqb_spec (S (processed st) `mod` 100) 0) as [Hm|Hm].
  - by rewrite decide_True by done.
  - by rewrite decide_False by done.
Qed.

Lemma foldl_loop_body_silent (lora_dict l : dict) total (st : @loop_state elt Obs) :
  observer (foldl (loop_body lora_dict None total) st l) = observer st.
Proof.
  revert st. induction l as [|kv l IH]; intros st; [done|].
  cbn [foldl]. rewrite IH. unfold loop_body. by destruct (parse_key _ _ _).
Qed.

Lemma convert_lora_observer input_path output_path (cb : @callback Obs) (obs : Obs) :
  (convert_lora load_file torch_load input_path output_path (Some cb) obs).2
  = replay cb obs
      ((0, "Loading: " +:+ Str.basename input_path) ::
       match open_checkpoint load_file torch_load input_path with
       | inr lora_dict => parse_reports (length lora_dict)
       | inl _ => []
       end).
Proof.
  unfold convert_lora. destruct (open_checkpoint _ _ _) as [e|lora_dict]; [done|].
  destruct (foldl (merge_group lora_dict) _ _). cbn [snd].
  by rewrite foldl_loop_body_observer.
Qed.

(** X1.  What a callback gets to see: first [(0, "Loading: <basename>")],
    and then, when the map loads, one report
    [(10 + 40 * j // total_keys, "Parsing keys...")] for every multiple
    [j] of 100 up to the number of keys, in increasing order; nothing after
    an exception.  Without a callback the listener is left alone. *)
Theorem progress_reports input_path output_path (cb : @callback Obs) (obs : Obs) :
  (convert_lora load_file torch_load input_path output_path (Some cb) obs).2
  = replay cb obs
      ((0, "Loading: " +:+ Str.basename input_path) ::
       match open_checkpoint load_file torch_load input_path with
       | inr lora_dict => parse_reports (length lora_dict)
       | inl _ => []
       end)
  ∧ (convert_lora load_file torch_load input_path output_path None obs).2 = obs.
Proof.
  split; [apply convert_lora_observer|].
  unfold convert_lora. destruct (open_checkpoint _ _ _) as [e|lora_dict]; [done|].
  destruct (foldl (merge_group lora_dict) _ _). cbn [snd].
  by rewrite foldl_loop_body_silent.
Qed.

End Reports.

(** The multiples of 100 among [1 .. n] are [n // 100] many. *)
Lemma multiples_of_100_count n :
  length (filter (λ j, j `mod` 100 = 0) (seq 1 n)) = n `div` 100.
Proof.
  induction n as [|n IH]; [done|].
  rewrite seq_S, filter_app, length_app, IH. cbn [plus].
  pose proof (Nat.div_mod_eq n 100) as Hn.
  pose proof (Nat.mod_upper_bound n 100 ltac:(lia)) as Hr.
  rewrite filter_cons, filter_nil.
  destruct (decide (n `mod` 100 = 99)) as [H99|H99].
  - assert (S n = 100 * (n `div` 100 + 1) + 0) as Hs by lia.
    rewrite decide_True; [|symmetry; apply (Nat.mod_unique _ _ (n `div` 100 + 1)); lia].
    cbn [length]. apply (Nat.div_unique _ _ _ 0); lia.
  - assert (S n = 100 * (n `div` 100) + S (n `mod` 100)) as Hs by lia.
    assert (S (n `mod` 100) = S n `mod` 100) as Hm
      by (apply (Nat.mod_unique _ _ (n `div` 100)); lia).
    rewrite decide_False by lia.
    cbn [length]. rewrite Nat.add_0_r.
    apply (Nat.div_unique _ _ _ (S (n `mod` 100))); lia.
Qed.

(** The parsing reports of a map of [n] keys: [n // 100] of them, each with
    a percentage between 10 and 50. *)
Lemma parse_reports_bounds n :
  length (parse_reports n) = n `div` 100
  ∧ Forall (λ r, 10 ≤ r.1 ≤ 50 ∧ r.2 = "Parsing keys...") (parse_reports n).
Proof.
  unfold parse_reports, reports_between. split.
  - rewrite length_fmap. apply multiples_of_100_count.
  - apply Forall_fmap, Forall_forall. intros j [_ Hj]%list_elem_of_filter.
    apply elem_of_seq in Hj. cbn [fst snd]. split; [|done].
    assert ((40 * j) `div` n ≤ 40) as Hq by (apply Nat.Div0.div_le_upper_bound; nia).
    revert Hq. generalize ((40 * j) `div` n). intros q Hq. simpl. lia.
Qed.

Lemma replay_record_report (seen rs : list (nat * string)) :
  replay record_report seen rs = seen ++ rs.
Proof.
  revert seen. induction rs as [|r rs IH]; intros seen; [by rewrite app_nil_r|].
  cbn [replay foldl]. fold (replay record_report (record_report r.1 r.2 seen) rs).
  rewrite IH. unfold record_report. destruct r. by rewrite <- app_assoc.
Qed.

Section ReportBounds.
Context {elt : Type} `{Element elt}.
Variables load_file torch_load : string → option (list (string * Tensor elt)).

(** X2.  The percentages a call reports never get past 50: the first
    report carries 0 and every later one a value between 10 and 50.  A call
    makes one report, and one more for every full hundred of keys of a map
    that loads. *)
Theorem progress_stays_below_half input_path output_path :
  let seen := (convert_lora load_file torch_load input_path output_path
                 (Some record_report) []).2 in
  Forall (λ r, r.1 = 0 ∨ 10 ≤ r.1 ≤ 50) seen
  ∧ length seen
    = 1 + match open_checkpoint load_file torch_load input_path with
          | inr lora_dict => length lora_dict `div` 100
          | inl _ => 0
          end.
Proof.
  pose proof (convert_lora_observer load_file torch_load input_path output_path
                record_report []) as Hseen.
  cbv zeta. rewrite Hseen, replay_record_report.
  cbn [app length]. split.
  - constructor; [by left|].
    destruct (open_checkpoint _ _ _) as [e|lora_dict]; [constructor|].
    eapply Forall_impl; [apply parse_reports_bounds|]. intros r [Hr _]. by right.
  - f_equal. destruct (open_checkpoint _ _ _) as [e|lora_dict]; [done|].
    apply parse_reports_bounds.
Qed.

End ReportBounds.

(** ** More about the output map *)

Module ContainsFacts.

Lemma startswith_app_l a b s :
  Str.startswith (a +:+ b) s = true → Str.startswith a s = true.
Proof.
  revert s. induction a as [|c a IH]; intros s; [done|].
  rewrite StrFacts.append_cons. destruct s as [|c' s]; [done|]. cbn [Str.startswith].
  destruct (Ascii.eqb c c'); [apply IH|done].
Qed.

(** A key that contains [a ++ b] contains [a]. *)
Lemma contains_app_l a b s :
  Str.contains (a +:+ b) s = true → Str.contains a s = true.
Proof.
  induction s as [|c s IH].
  { simpl. rewrite !orb_false_r. apply startswith_app_l. }
  cbn [Str.contains]. intros [Hp|Hc]%orb_true_iff.
  - by rewrite (startswith_app_l _ _ _ Hp).
  - rewrite (IH Hc). apply orb_true_r.
Qed.

End ContainsFacts.

Section Provenance.
Context {elt : Type} `{Element elt}.

Local Abbreviation tensor := (Tensor elt).
Local Abbreviation dict := (list (string * Tensor elt)).

(** A list with distinct keys binds a key to one value. *)
Lemma NoDup_keys_functional {A} (l : list (string * A)) k v1 v2 :
  NoDup l.*1 → (k, v1) ∈ l → (k, v2) ∈ l → v1 = v2.
Proof.
  induction l as [|[k' v'] l IH]; [by intros _ ?%elem_of_nil|].
  rewrite fmap_cons. cbn [fst]. intros [Hk Hnd]%NoDup_cons.
  assert (∀ v, (k', v) ∉ l) as Hfresh.
  { intros v Hv. apply Hk. apply list_elem_of_fmap. by exists (k', v). }
  intros [[= -> ->]|H1]%elem_of_cons [[= ->]|H2]%elem_of_cons;
    [done|by apply Hfresh in H2|subst; by apply Hfresh in H1|by apply IH].
Qed.

Lemma dict_get_elem (lora_dict : dict) key value :
  dict_get key lora_dict = Some value → (key, value) ∈ lora_dict.
Proof.
  induction lora_dict as [|[k v] d IH]; [done|]. cbn [dict_get].
  destruct (decide (k = key)) as [->|Hne].
  - intros [= ->]. apply elem_of_cons. by left.
  - intros Hd. apply elem_of_cons. right. by apply IH.
Qed.

Lemma apply_writes_origin (ws : list (string * tensor)) key t :
  apply_writes ws ∅ !! key = Some t → (key, t) ∈ ws.
Proof.
  induction ws as [|[k' t'] ws IH] using rev_ind.
  { unfold apply_writes. cbn [foldl]. by rewrite lookup_empty. }
  rewrite apply_writes_snoc. cbn [fst snd].
  destruct (decide (k' = key)) as [->|Hne].
  - rewrite lookup_insert_eq. intros [= ->]. apply elem_of_app. right.
    by apply list_elem_of_singleton.
  - rewrite lookup_insert_ne by done. intros Hin%IH. apply elem_of_app. by left.
Qed.

(** A key without [.attention.to_] is stored as it is and captured by no group. *)
Lemma plain_entry (lora_dict : dict) kv :
  Str.contains ".attention.to_" kv.1 = false →
  entry_writes lora_dict kv = [kv] ∧ entry_slot kv.1 = None.
Proof.
  intros Hatt.
  assert (Str.contains ".attention.to_out.0." kv.1 = false) as Hout.
  { destruct (Str.contains ".attention.to_out.0." kv.1) eqn:Hc; [|done].
    apply (ContainsFacts.contains_app_l ".attention.to_" "out.0.") in Hc. congruence. }
  unfold entry_writes, entry_slot. by rewrite Hout, Hatt.
Qed.

Lemma plain_entries (lora_dict l : dict) gs :
  Forall (λ kv, Str.contains ".attention.to_" kv.1 = false) l →
  l ≫= entry_writes lora_dict = l ∧ foldl collect gs l = gs.
Proof.
  intros Hplain. revert gs. induction Hplain as [|kv l Hkv _ IH]; intros gs; [done|].
  destruct (plain_entry lora_dict kv Hkv) as [Hw Hs].
  rewrite bind_cons, Hw. cbn [foldl]. unfold collect at 2. rewrite Hs.
  destruct (IH gs) as [-> ->]. done.
Qed.

(** X4.  A map in which no key contains [.attention.to_] (for instance one
    that was converted before) comes out as it went in: the output map holds
    exactly the input entries, and the count is 0. *)
Theorem plain_checkpoint_unchanged (lora_dict : dict) :
  NoDup lora_dict.*1 →
  Forall (λ kv, Str.contains ".attention.to_" kv.1 = false) lora_dict →
  (transform lora_dict).1 = list_to_map lora_dict ∧ (transform lora_dict).2 = 0.
Proof.
  intros Hnd Hplain. rewrite transform_eq. unfold writes, groups_of.
  rewrite first_loop_eq. cbn [fst snd].
  destruct (plain_entries lora_dict lora_dict [] Hplain) as [-> ->].
  split; [|done].
  change ([] ≫= group_writes lora_dict) with (@nil (string * tensor)).
  rewrite app_nil_r. apply map_eq. intros k.
  destruct (decide (k ∈ lora_dict.*1)) as [Hin|Hin].
  - apply list_elem_of_fmap in Hin as ([k' v] & -> & Hin). cbn [fst].
    rewrite (elem_of_list_to_map_1 _ _ _ Hnd Hin).
    apply apply_writes_uncontested; [done|].
    intros t Ht. by eapply (NoDup_keys_functional lora_dict).
  - rewrite apply_writes_notin, lookup_empty by done. symmetry.
    by apply not_elem_of_list_to_map_1.
Qed.

(** X5.  The conversion makes up no tensor but the fused ones: whatever
    the output map holds is an input tensor, unchanged, or it sits under
    one of the three fused keys of a merge group. *)
Theorem output_tensor_origin (lora_dict : dict) key t :
  (transform lora_dict).1 !! key = Some t →
  (∃ key', (key', t) ∈ lora_dict)
  ∨ (∃ g s, g ∈ (groups_of lora_dict).*1 ∧ s ∈ fused_suffixes ∧ key = g +:+ s).
Proof.
  rewrite transform_eq. cbn [fst]. intros [Hw|Hw]%apply_writes_origin%elem_of_app.
  - left. apply list_elem_of_bind in Hw as ([k v] & Hw & Hkv).
    unfold entry_writes in Hw. cbn [fst snd] in Hw.
    destruct (Str.contains ".attention.to_out.0." k).
    + apply elem_of_cons in Hw as [[= -> ->]|Hw]; [eauto|].
      destruct (Str.contains "lora_A" k); [|by apply elem_of_nil in Hw].
      destruct (dict_get _ lora_dict) as [alpha|] eqn:Hget; [|by apply elem_of_nil in Hw].
      apply list_elem_of_singleton in Hw as [= -> ->].
      apply dict_get_elem in Hget. eauto.
    + destruct (_ && _); [by apply elem_of_nil in Hw|].
      destruct (entry_slot k); [by apply elem_of_nil in Hw|].
      apply list_elem_of_singleton in Hw as [= -> ->]. eauto.
  - right. apply list_elem_of_bind in Hw as ([g d] & Hw & Hg).
    apply group_writes_suffix in Hw as (s & Hs & ->). exists g, s.
    split_and!; [|done..]. apply list_elem_of_fmap. by exists (g, d).
Qed.

(** X6.  A group with an empty slot, or with shapes that do not fit,
    leaves no fused key behind: unless an input entry is stored under that
    very name by the first loop, the output map has none of the group's
    three fused keys. *)
Theorem unfused_group_leaves_no_key (lora_dict : dict) g d s :
  (g, d) ∈ groups_of lora_dict →
  complete d && shape_compatible d = false →
  s ∈ fused_suffixes →
  g +:+ s ∉ (lora_dict ≫= entry_writes lora_dict).*1 →
  (transform lora_dict).1 !! (g +:+ s) = None.
Proof.
  intros Hin Hbad Hs Hfirst. apply output_absent. unfold writes. rewrite fmap_app.
  intros [Hw|Hw]%elem_of_app; [done|].
  apply list_elem_of_fmap in Hw as ([k t] & Hk & Hw). cbn [fst] in Hk. subst k.
  apply list_elem_of_bind in Hw as ([g' d'] & Hw & Hg').
  pose proof Hw as Hw'. apply group_writes_suffix in Hw' as (s' & Hs' & Heq).
  cbn [fst] in Heq. apply fused_key_inj in Heq as [<- _]; [|done..].
  assert (d' = d) as ->
    by (eapply (NoDup_keys_functional (groups_of lora_dict)); [apply groups_of_NoDup|done..]).
  destruct (unfused_group_contributes_nothing lora_dict g d Hbad) as [Hnone _].
  rewrite Hnone in Hw. by apply elem_of_nil in Hw.
Qed.

(** X7.  The factor tensors captured into a merge group are taken out of
    the map: the first loop stores nothing for such an entry, so its key is
    absent from the output unless another entry or a fused group produces
    that very name. *)
Theorem captured_key_removed (lora_dict : dict) key value :
  (key, value) ∈ lora_dict →
  is_Some (entry_slot key) →
  key ∉ (other_writes lora_dict key).*1 →
  entry_writes lora_dict (key, value) = []
  ∧ (transform lora_dict).1 !! key = None.
Proof.
  intros Hin Hslot Hother. split; [by apply captured_entry_not_stored|].
  apply output_absent_others; [|done].
  intros v. rewrite captured_entry_not_stored by done. apply not_elem_of_nil.
Qed.

(** X8.  For a group that fuses: a one-element alpha under
    [<group>.to_q.alpha] that is not zero is stored, times three and with
    its shape, under [<group>.qkv.alpha]. *)
Theorem nonzero_alpha_rescaled (lora_dict : dict) g d (alpha : tensor) x :
  (g, d) ∈ groups_of lora_dict →
  complete d && shape_compatible d = true →
  dict_get (g +:+ ".to_q.alpha") lora_dict = Some alpha →
  data alpha = [x] → nonzero x = true →
  (transform lora_dict).1 !! (g +:+ ".qkv.alpha") = Some (mkTensor (shape alpha) [times3 x]).
Proof.
  intros Hin Hok Hget Hdata Hx.
  replace (mkTensor (shape alpha) [times3 x]) with (mul3 alpha)
    by (unfold mul3; by rewrite Hdata).
  apply (fused_alpha_stored lora_dict g d); [done|by apply fuse_tensors_Some_iff|].
  rewrite Hget. by eapply first_true_nonzero.
Qed.

(** X9.  For a group that fuses and has no [<group>.to_q.alpha]: the alpha
    under [<group>.to_q.lora_A.alpha], if there is one, is stored times
    three under [<group>.qkv.alpha] whatever it holds (its truth value is
    not taken); if there is none, the merge loop stores the two fused
    factors and nothing else for the group. *)
Theorem second_alpha_key_rescaled (lora_dict : dict) g d :
  (g, d) ∈ groups_of lora_dict →
  complete d && shape_compatible d = true →
  dict_get (g +:+ ".to_q.alpha") lora_dict = None →
  match dict_get (g +:+ ".to_q.lora_A.alpha") lora_dict with
  | Some alpha => (transform lora_dict).1 !! (g +:+ ".qkv.alpha") = Some (mul3 alpha)
  | None => (group_writes lora_dict (g, d)).*1
            = [g +:+ ".qkv.lora_B.weight"; g +:+ ".qkv.lora_A.weight"]
  end.
Proof.
  intros Hin Hok%fuse_tensors_Some_iff Hfirst.
  destruct (dict_get (g +:+ ".to_q.lora_A.alpha") lora_dict) as [alpha|] eqn:Hsecond.
  - apply (fused_alpha_stored lora_dict g d); [done..|]. by rewrite Hfirst, Hsecond.
  - unfold group_writes. cbn [fst snd]. rewrite (fuse_tensors_all_axes d Hok).
    destruct Hok as [[qkv_B qkv_A] ->]. by rewrite Hfirst, Hsecond.
Qed.

End Provenance.

(** ** The group of a factor key *)

Module SplitFacts.

Lemma split_nonempty sep s : ∃ p ps, Str.split sep s = p :: ps.
Proof.
  destruct s as [|c s]; [by eexists _, _|]. cbn [Str.split].
  destruct (Ascii.eqb c sep); [by eexists _, _|].
  destruct (Str.split sep s); by eexists _, _.
Qed.

(** Splitting at a separator that is written out. *)
Lemma split_app s t :
  Str.split "." (s +:+ "." +:+ t) = Str.split "." s ++ Str.split "." t.
Proof.
  induction s as [|c s IH]; [done|].
  rewrite StrFacts.append_cons. cbn [Str.split]. rewrite IH.
  destruct (Ascii.eqb c "."); [done|].
  by destruct (split_nonempty "." s) as (p & ps & ->).
Qed.

(** [sep.join(s.split(sep))] is [s]. *)
Lemma join_split s : Str.join "." (Str.split "." s) = s.
Proof.
  induction s as [|c s IH]; [done|]. cbn [Str.split].
  destruct (Ascii.eqb_spec c ".") as [->|Hc].
  - destruct (split_nonempty "." s) as (p & ps & Hs). rewrite Hs in *.
    change (Str.join "." ("" :: p :: ps)) with ("" +:+ "." +:+ Str.join "." (p :: ps)).
    by rewrite IH.
  - destruct (split_nonempty "." s) as (p & ps & Hs). rewrite Hs in *.
    destruct ps as [|p' ps]; [cbn [Str.join] in *; by rewrite IH|].
    change (Str.join "." (String c p :: p' :: ps))
      with (String c p +:+ "." +:+ Str.join "." (p' :: ps)).
    change (Str.join "." (p :: p' :: ps))
      with (p +:+ "." +:+ Str.join "." (p' :: ps)) in IH.
    by rewrite <- IH.
Qed.

End SplitFacts.

(** X10.  The factor keys of one module path meet in one group, named by
    that path: for a path whose segments are no axis and no factor names,
    the key [<path>.<to_q|to_k|to_v>.<lora_A|lora_B>.<leaf>] is a merge
    candidate of group [<path>], with the axis and the factor it names. *)
Theorem factor_key_group path ax fac leaf a l :
  attn_of_part ax = Some a →
  lora_of_part fac = Some l →
  Str.split "." leaf = [leaf] →
  attn_of_part leaf = None →
  Forall (λ p, attn_of_part p = None ∧ lora_of_part p = None) (Str.split "." path) →
  merge_slot (path +:+ "." +:+ ax +:+ "." +:+ fac +:+ "." +:+ leaf) = Some (path, a, l).
Proof.
  intros Hax Hfac Hleaf Hleaf' Hpath.
  assert (Str.split "." ax = [ax] ∧ lora_of_part ax = None) as [Sax Lax].
  { unfold attn_of_part in Hax. repeat case_decide; by simplify_eq. }
  assert (Str.split "." fac = [fac] ∧ attn_of_part fac = None) as [Sfac Afac].
  { unfold lora_of_part in Hfac. repeat case_decide; by simplify_eq. }
  assert (omap attn_of_part (Str.split "." path) = []
          ∧ omap lora_of_part (Str.split "." path) = []
          ∧ filter (λ p, attn_of_part p = None) (Str.split "." path) = Str.split "." path)
    as (Hoa & Hol & Hfil).
  { induction Hpath as [|p ps [Hp1 Hp2] _ (IH1 & IH2 & IH3)]; [done|].
    cbn [omap list_omap]. rewrite Hp1, Hp2, filter_cons_True by done.
    fold (omap attn_of_part ps). fold (omap lora_of_part ps).
    by rewrite IH1, IH2, IH3. }
  unfold merge_slot. rewrite !SplitFacts.split_app, Sax, Sfac, Hleaf.
  rewrite !omap_app, Hoa, Hol. cbn [omap list_omap app]. rewrite Hax, Lax, Hfac.
  cbn [head]. rewrite !filter_app, Hfil.
  rewrite (filter_cons_False _ ax) by (by rewrite Hax).
  rewrite (filter_cons_True _ fac), (filter_cons_True _ leaf) by done.
  rewrite !filter_nil. cbn [app]. unfold Str.drop_last2.
  rewrite length_app. cbn [length].
  replace (length (Str.split "." path) + 2 - 2) with (length (Str.split "." path)) by lia.
  by rewrite take_app_length, SplitFacts.join_split.
Qed.

(** ** The output map on sample checkpoints *)

Lemma plain_checkpoint_unchanged_witness :
  (transform fused_layout).1 = list_to_map fused_layout ∧ (transform fused_layout).2 = 0.
Proof. apply plain_checkpoint_unchanged; compute_done. Defined.

Lemma output_tensor_origin_witness :
  (∃ key', (key', mat 1 1 [14]%float) ∈ demo)
  ∨ (∃ g s, g ∈ (groups_of demo).*1 ∧ s ∈ fused_suffixes ∧ "layer0.norm.weight" = g +:+ s).
Proof. apply output_tensor_origin. vm_compute. reflexivity. Defined.

Lemma unfused_group_leaves_no_key_witness :
  (transform no_v_projection).1 !! ("layer0.attention" +:+ ".qkv.alpha") = None.
Proof.
  apply (unfused_group_leaves_no_key no_v_projection "layer0.attention" no_v_qkv).
  - apply list_elem_of_In. vm_compute. left. reflexivity.
  - vm_compute. reflexivity.
  - in_computed_list.
  - not_in_computed_keys.
Defined.

Lemma captured_key_removed_witness :
  entry_writes demo ("layer0.attention.to_q.lora_A.weight", mat 1 2 [1; 2]%float) = []
  ∧ (transform demo).1 !! "layer0.attention.to_q.lora_A.weight" = None.
Proof.
  apply captured_key_removed.
  - in_computed_list.
  - vm_compute. eexists. reflexivity.
  - not_in_computed_keys.
Defined.

Lemma nonzero_alpha_rescaled_witness :
  (transform demo).1 !! ("layer0.attention" +:+ ".qkv.alpha")
  = Some (mkTensor (shape (scalar 8)) [times3 8%float]).
Proof.
  apply (nonzero_alpha_rescaled demo "layer0.attention" layer0_qkv (scalar 8) 8%float).
  - apply list_elem_of_In. vm_compute. left. reflexivity.
  - vm_compute. reflexivity.
  - vm_compute. reflexivity.
  - reflexivity.
  - vm_compute. reflexivity.
Defined.

Lemma second_alpha_key_rescaled_witness :
  match dict_get ("layer0.attention" +:+ ".to_q.lora_A.alpha") legacy_alpha with
  | Some alpha =>
      (transform legacy_alpha).1 !! ("layer0.attention" +:+ ".qkv.alpha") = Some (mul3 alpha)
  | None =>
      (group_writes legacy_alpha ("layer0.attention", layer0_qkv)).*1
      = ["layer0.attention" +:+ ".qkv.lora_B.weight"; "layer0.attention" +:+ ".qkv.lora_A.weight"]
  end
  ∧ dict_get ("layer0.attention" +:+ ".to_q.lora_A.alpha") legacy_alpha
    = Some (mkTensor [2] [8; 8]%float).
Proof.
  split; [|vm_compute; reflexivity].
  apply (second_alpha_key_rescaled legacy_alpha "layer0.attention" layer0_qkv).
  - apply list_elem_of_In. vm_compute. left. reflexivity.
  - vm_compute. reflexivity.
  - vm_compute. reflexivity.
Defined.

Lemma factor_key_group_witness :
  merge_slot ("layer0.attention" +:+ "." +:+ "to_k" +:+ "." +:+ "lora_B" +:+ "." +:+ "weight")
  = Some ("layer0.attention", attn_k, lora_B).
Proof. apply factor_key_group; vm_compute; try reflexivity. by repeat constructor. Defined.

(** ** File names *)

Module AffixFacts.

Lemma startswith_spec p s : Str.startswith p s = true ↔ ∃ t, s = p +:+ t.
Proof.
  revert s. induction p as [|a p IH]; intros s; cbn [Str.startswith].
  - split; [by exists s | done].
  - destruct s as [|b s].
    + split; [done | by intros [t [=]]].
    + destruct (Ascii.eqb_spec a b) as [->|Hne].
      * rewrite IH. split; intros [t Ht]; exists t.
        -- by rewrite Ht.
        -- rewrite StrFacts.append_cons in Ht. by injection Ht.
      * split; [done|]. intros [t Ht]. rewrite StrFacts.append_cons in Ht.
        injection Ht as Hb _. by destruct Hne.
Qed.

Lemma contains_spec sub s : Str.contains sub s = true ↔ ∃ a b, s = a +:+ sub +:+ b.
Proof.
  induction s as [|c s IH]; cbn [Str.contains].
  - rewrite orb_false_r, startswith_spec. split.
    + intros [t Ht]. by exists "", t.
    + intros (a & b & Hab). destruct a; [by exists b | done].
  - rewrite orb_true_iff, startswith_spec, IH. split.
    + intros [[t Ht]|(a & b & Hab)]; [by exists "", t|].
      exists (String c a), b. by rewrite Hab.
    + intros (a & b & Hab). destruct a as [|c' a]; [left; by exists b|].
      right. rewrite StrFacts.append_cons in Hab. injection Hab as -> ->. by exists a, b.
Qed.

Lemma substring_chars n m s :
  Str.chars (String.substring n m s) = take m (drop n (Str.chars s)).
Proof.
  revert n m. induction s as [|c s IH]; intros [|n] [|m]; cbn; try done.
  by rewrite (IH 0 m), drop_0.
Qed.

Lemma endswith_spec sfx s : Str.endswith sfx s = true ↔ ∃ a, s = a +:+ sfx.
Proof.
  unfold Str.endswith. split.
  - destruct (Nat.leb_spec (String.length sfx) (String.length s)) as [Hle|]; [|done].
    intros Heq%String.eqb_eq. set (m := String.length sfx) in *.
    exists (String.substring 0 (String.length s - m) s).
    apply StrFacts.chars_inj. rewrite StrFacts.chars_app, <- Heq, !substring_chars, drop_0.
    rewrite (take_ge (drop _ _)); [by rewrite take_drop|].
    rewrite length_drop, StrFacts.chars_length. lia.
  - intros [a ->]. rewrite StrFacts.length_append.
    destruct (Nat.leb_spec (String.length sfx) (String.length a + String.length sfx)); [|lia].
    apply String.eqb_eq, StrFacts.chars_inj.
    rewrite substring_chars, StrFacts.chars_app.
    replace (String.length a + String.length sfx - String.length sfx)
      with (length (Str.chars a)) by (rewrite StrFacts.chars_length; lia).
    rewrite drop_app_length, take_ge; [done|]. by rewrite StrFacts.chars_length.
Qed.

End AffixFacts.

Module NameFacts.
Import AffixFacts.

Lemma contains_char c s : Str.contains (String c "") s = true ↔ c ∈ Str.chars s.
Proof.
  induction s as [|b s IH]; cbn [Str.contains Str.startswith Str.chars String.list_ascii_of_string].
  - rewrite elem_of_nil. by split.
  - fold (Str.chars s). rewrite elem_of_cons, orb_true_iff, IH.
    destruct (Ascii.eqb_spec c b) as [->|Hne]; [by split; auto|].
    split; intros [?|?]; auto; done.
Qed.

Lemma rfind_head_absent c s : c ∉ Str.chars s → Str.rfind_head (String c "") s = None.
Proof.
  induction s as [|b s IH]; [done|].
  cbn [Str.chars String.list_ascii_of_string]. fold (Str.chars s).
  rewrite not_elem_of_cons. intros [Hne Hs]. cbn [Str.rfind_head Str.startswith].
  rewrite (IH Hs). by destruct (Ascii.eqb_spec c b).
Qed.

(** [rfind] stops at the last separator. *)
Lemma rfind_head_last c stem ext :
  c ∉ Str.chars ext →
  Str.rfind_head (String c "") (stem +:+ String c ext) = Some stem.
Proof.
  intros Hext. induction stem as [|b stem IH].
  - change ("" +:+ String c ext) with (String c ext).
    cbn [Str.rfind_head Str.startswith]. rewrite (rfind_head_absent _ _ Hext).
    by rewrite Ascii.eqb_refl.
  - rewrite StrFacts.append_cons. cbn [Str.rfind_head]. by rewrite IH.
Qed.

Lemma substring_suffix a b :
  String.substring (String.length a) (String.length (a +:+ b) - String.length a) (a +:+ b) = b.
Proof.
  apply StrFacts.chars_inj.
  rewrite substring_chars, StrFacts.chars_app, StrFacts.length_append.
  rewrite <- (StrFacts.chars_length a), drop_app_length.
  apply take_ge. rewrite !StrFacts.chars_length. lia.
Qed.

(** [os.path.splitext] on a name with a plain extension. *)
Lemma splitext_ext stem ext :
  "."%char ∉ Str.chars ext → "/"%char ∉ Str.chars ext →
  forallb (Ascii.eqb ".") (Str.chars (Str.basename stem)) = false →
  Path.splitext (stem +:+ "." +:+ ext) = (stem, "." +:+ ext).
Proof.
  intros Hdot Hsep Hbase. unfold Path.splitext.
  change (stem +:+ "." +:+ ext) with (stem +:+ String "." ext).
  rewrite (rfind_head_last _ _ _ Hdot), substring_suffix.
  replace (Str.contains "/" (String "." ext)) with false; [by rewrite Hbase|].
  symmetry. apply not_true_is_false. rewrite contains_char.
  cbn [Str.chars String.list_ascii_of_string]. fold (Str.chars ext).
  rewrite elem_of_cons. by intros [?|?].
Qed.

(** An occurrence of [p] at the start of [a ++ s] that is not one at the
    start of [a] runs over the first character of [s]. *)
Lemma startswith_straddle p a c0 s :
  Str.startswith p (a +:+ String c0 s) = true → Str.startswith p a = false →
  c0 ∈ drop (String.length a) (Str.chars p).
Proof.
  revert p. induction a as [|x a IH]; intros [|b p]; try done.
  - change ("" +:+ String c0 s) with (String c0 s). cbn [Str.startswith].
    destruct (Ascii.eqb_spec b c0) as [->|]; [|done]. intros _ _. apply elem_of_cons. by left.
  - rewrite StrFacts.append_cons. cbn [Str.startswith].
    destruct (Ascii.eqb b x); [|done]. intros Hp Ha. exact (IH _ Hp Ha).
Qed.

(** [replace] leaves alone a stem in which [old] does not occur, when the
    character that follows the stem is none of those of [old] after its
    first. *)
Lemma replace_app_free a old new stem c0 s :
  c0 ∉ Str.chars old → Str.contains (String a old) stem = false →
  Str.replace (String a old) new (stem +:+ String c0 s)
  = stem +:+ Str.replace (String a old) new (String c0 s).
Proof.
  intros Hc0. unfold Str.replace. induction stem as [|c stem IH]; [done|].
  cbn [Str.contains]. intros [Hp Hs]%orb_false_iff.
  rewrite !StrFacts.append_cons. cbn [Str.replace_go].
  destruct (Str.startswith (String a old) (String c (stem +:+ String c0 s))) eqn:Hp'.
  - rewrite <- StrFacts.append_cons in Hp'.
    pose proof (startswith_straddle _ _ _ _ Hp' Hp) as Hin.
    cbn [String.length Str.chars String.list_ascii_of_string drop] in Hin.
    fold (Str.chars old) in Hin. destruct Hc0.
    exact (subseteq_drop _ _ _ Hin).
  - by rewrite IH.
Qed.

Lemma replace_absent old new s :
  Str.contains old s = false → Str.replace old new s = s.
Proof.
  unfold Str.replace. induction s as [|c s IH]; [done|].
  cbn [Str.contains Str.replace_go]. intros [-> Hs]%orb_false_iff. by rewrite IH.
Qed.

(** Each replaced occurrence changes the length by [|new| - |old|]. *)
Lemma replace_go_longer old new skip s :
  old ≠ "" → String.length old ≤ String.length new →
  String.length s - skip ≤ String.length (Str.replace_go old new skip s).
Proof.
  intros Hold Hnew. revert skip. induction s as [|c s IH]; intros skip; [simpl; lia|].
  cbn [Str.replace_go]. destruct skip as [|k].
  - destruct (Str.startswith old (String c s)) eqn:Hp.
    + specialize (IH (String.length old - 1)). rewrite StrFacts.length_append.
      destruct old as [|a old]; [done|]. cbn [String.length] in *. lia.
    + specialize (IH 0). cbn [String.length]. lia.
  - specialize (IH k). cbn [String.length]. lia.
Qed.

Lemma replace_strictly_longer old new s :
  String.length old < String.length new → old ≠ "" → Str.contains old s = true →
  String.length s < String.length (Str.replace old new s).
Proof.
  intros Hnew Hold. unfold Str.replace. induction s as [|c s IH].
  { destruct old; [done|]. simpl. done. }
  cbn [Str.contains Str.replace_go].
  destruct (Str.startswith old (String c s)) eqn:Hp.
  - intros _.
    pose proof (replace_go_longer old new (String.length old - 1) s Hold) as Hle.
    rewrite StrFacts.length_append. cbn [String.length] in *.
    destruct old as [|a old]; [done|]. cbn [String.length] in *. lia.
  - cbn [orb]. intros Hc%IH. cbn [String.length]. lia.
Qed.

End NameFacts.

Lemma append_assoc (a b c : string) : (a +:+ b) +:+ c = a +:+ (b +:+ c).
Proof. apply StrFacts.chars_inj. by rewrite !StrFacts.chars_app, app_assoc. Qed.

(** X11.  A name the batch task writes is never a name it reads: the filter
    of line 202 refuses every output name of line 213, although
    [convert_lora] would load such a file as a safetensors file. *)
Theorem batch_output_not_taken filename :
  batch_accepts (batch_output_name filename) = false
  ∧ Str.endswith ".safetensors" (batch_output_name filename) = true.
Proof.
  unfold batch_accepts, batch_output_name. split.
  - replace (Str.contains "_zimage" _) with true; [apply andb_false_r|].
    symmetry. apply AffixFacts.contains_spec.
    by exists (Path.splitext filename).1, ".safetensors".
  - apply AffixFacts.endswith_spec. exists ((Path.splitext filename).1 +:+ "_zimage").
    by rewrite append_assoc.
Qed.

(** X12.  The output name of the batch task is the file name without its
    last extension, followed by [_zimage.safetensors], whatever that
    extension is: two files of a folder that differ in the extension only
    are written to the same output file. *)
Theorem batch_output_name_stem stem ext :
  "."%char ∉ Str.chars ext → "/"%char ∉ Str.chars ext →
  forallb (Ascii.eqb ".") (Str.chars (Str.basename stem)) = false →
  batch_output_name (stem +:+ "." +:+ ext) = stem +:+ "_zimage.safetensors".
Proof.
  intros Hdot Hsep Hbase. unfold batch_output_name.
  by rewrite (NameFacts.splitext_ext _ _ Hdot Hsep Hbase).
Qed.

Lemma batch_output_name_stem_witness :
  batch_output_name ("style" +:+ "." +:+ "pt") = "style" +:+ "_zimage.safetensors"
  ∧ batch_output_name ("style" +:+ "." +:+ "safetensors") = "style" +:+ "_zimage.safetensors".
Proof.
  split; apply batch_output_name_stem;
    solve [not_in_computed_keys | vm_compute; reflexivity].
Defined.

(** X13.  The output path that [browse_single_in] proposes: for an input
    path whose part before the extension contains neither [.safetensors]
    nor [.pt], the extension [.safetensors] or [.pt] is replaced by
    [_zimage.safetensors]; for the extension [.pth], which [convert_lora]
    reads as well, only its first three characters are replaced. *)
Theorem suggested_output_stem stem :
  Str.contains ".safetensors" stem = false → Str.contains ".pt" stem = false →
  suggested_output (stem +:+ ".safetensors") = stem +:+ "_zimage.safetensors"
  ∧ suggested_output (stem +:+ ".pt") = stem +:+ "_zimage.safetensors"
  ∧ suggested_output (stem +:+ ".pth") = stem +:+ "_zimage.safetensorsh".
Proof.
  intros Hst Hpt. unfold suggested_output. repeat split.
  - rewrite (NameFacts.replace_app_free "." "safetensors" _ stem "." "safetensors");
      [|not_in_computed_keys|done].
    change (Str.replace ".safetensors" _ ".safetensors") with "_zimage.safetensors".
    by rewrite (NameFacts.replace_app_free "." "pt" _ stem "_" "zimage.safetensors");
      [|not_in_computed_keys|done].
  - rewrite (NameFacts.replace_app_free "." "safetensors" _ stem "." "pt");
      [|not_in_computed_keys|done].
    change (Str.replace ".safetensors" _ ".pt") with ".pt".
    by rewrite (NameFacts.replace_app_free "." "pt" _ stem "." "pt");
      [|not_in_computed_keys|done].
  - rewrite (NameFacts.replace_app_free "." "safetensors" _ stem "." "pth");
      [|not_in_computed_keys|done].
    change (Str.replace ".safetensors" _ ".pth") with ".pth".
    by rewrite (NameFacts.replace_app_free "." "pt" _ stem "." "pth");
      [|not_in_computed_keys|done].
Qed.

Lemma suggested_output_stem_witness :
  suggested_output ("/loras/v1.2/style" +:+ ".safetensors")
    = "/loras/v1.2/style" +:+ "_zimage.safetensors"
  ∧ suggested_output ("/loras/v1.2/style" +:+ ".pt")
    = "/loras/v1.2/style" +:+ "_zimage.safetensors"
  ∧ suggested_output ("/loras/v1.2/style" +:+ ".pth")
    = "/loras/v1.2/style" +:+ "_zimage.safetensorsh".
Proof. apply suggested_output_stem; vm_compute; reflexivity. Defined.

(** X14.  Whenever [convert_lora] accepts the extension of the input path,
    the output path that [browse_single_in] proposes is longer than the
    input path: the proposal never names the input file itself. *)
Theorem suggested_output_longer p :
  Str.endswith ".safetensors" p || Str.endswith ".pt" p || Str.endswith ".pth" p = true →
  String.length p < String.length (suggested_output p).
Proof.
  intros Hext. unfold suggested_output.
  assert (Str.contains ".safetensors" p = true ∨ Str.contains ".pt" p = true) as Hocc.
  { apply orb_true_iff in Hext as [[Hext|Hext]%orb_true_iff|Hext];
      apply AffixFacts.endswith_spec in Hext as [a ->];
      [left|right|right]; apply AffixFacts.contains_spec.
    - by exists a, "".
    - by exists a, "".
    - by exists a, "h". }
  destruct (Str.contains ".safetensors" p) eqn:Hst.
  - pose proof (NameFacts.replace_strictly_longer ".safetensors" "_zimage.safetensors" p)
      as Hlt.
    pose proof (NameFacts.replace_go_longer ".pt" "_zimage.safetensors" 0
                  (Str.replace ".safetensors" "_zimage.safetensors" p)) as Hle.
    unfold Str.replace at 1. cbn [String.length] in Hlt, Hle.
    specialize (Hlt ltac:(lia) ltac:(done) Hst). specialize (Hle ltac:(done) ltac:(lia)). lia.
  - destruct Hocc as [|Hpt]; [done|]. rewrite (NameFacts.replace_absent _ _ _ Hst).
    apply NameFacts.replace_strictly_longer; [simpl; lia|done|done].
Qed.

Lemma suggested_output_longer_witness :
  String.length "/loras/style.v2.pt" < String.length (suggested_output "/loras/style.v2.pt").
Proof. apply suggested_output_longer. vm_compute. reflexivity. Defined.

(** X15.  A file whose name ends in [.pth] is read by [convert_lora]
    (through [torch.load]) but is not among the files the batch task
    takes. *)
Theorem pth_not_batched {elt} (load_file torch_load : string → option (list (string * Tensor elt)))
    filename :
  Str.endswith ".pth" filename = true →
  batch_accepts filename = false
  ∧ open_checkpoint load_file torch_load filename
    = match torch_load filename with Some d => inr d | None => inl LoadError end.
Proof.
  intros Hpth. pose proof Hpth as [a ->]%AffixFacts.endswith_spec.
  assert (Str.endswith ".safetensors" (a +:+ ".pth") = false) as Hst.
  { apply not_true_is_false. intros [b Hb]%AffixFacts.endswith_spec.
    by eapply (StrFacts.append_ne_last a b ".pth" ".safetensors" "h" "s"). }
  assert (Str.endswith ".pt" (a +:+ ".pth") = false) as Hpt.
  { apply not_true_is_false. intros [b Hb]%AffixFacts.endswith_spec.
    by eapply (StrFacts.append_ne_last a b ".pth" ".pt" "h" "t"). }
  unfold batch_accepts, open_checkpoint. by rewrite Hst, Hpt, Hpth.
Qed.

Lemma pth_not_batched_witness :
  batch_accepts "style.pth" = false
  ∧ open_checkpoint (λ _, None) (λ _, Some demo) "style.pth" = inr demo.
Proof. apply (pth_not_batched (λ _, None) (λ _, Some demo) "style.pth"). vm_compute. reflexivity. Defined.

(** ** The single-file task *)

Section Single.
Context {elt : Type} `{Element elt} {File : Type}.
Variables read_safetensors read_pickle : File → option (list (string * Tensor elt)).
Variable save_file : gmap string File → @saved elt → @save_result File.
Variable write_safetensors : gmap string (Tensor elt) → list (string * string) → File.
Variable load_error_text : string → string.
Variable save_error_text : @saved elt → string.

Local Abbreviation disk := (gmap string File).
Local Abbreviation convert :=
  (convert_at read_safetensors read_pickle save_file write_safetensors).
Local Abbreviation single :=
  (run_single read_safetensors read_pickle save_file write_safetensors
     load_error_text save_error_text).
Local Abbreviation text := (failure_text load_error_text save_error_text).
Local Abbreviation load_file fs := (λ p : string, fs !! p ≫= read_safetensors).
Local Abbreviation torch_load fs := (λ p : string, fs !! p ≫= read_pickle).

(** A call on the disk: what it returns, what it leaves on the disk. *)
Lemma convert_at_eq {Obs : Type} (fs : disk) input_path output_path
    (cb : option (@callback Obs)) (obs : Obs) :
  convert fs input_path output_path cb obs
  = let obs' := (convert_lora (load_file fs) (torch_load fs)
                   input_path output_path cb obs).2 in
    match open_checkpoint (load_file fs) (torch_load fs) input_path with
    | inl e => (inl (Raised input_path e), fs, obs')
    | inr lora_dict =>
        let f := mkSaved output_path (transform lora_dict).1 metadata in
        match save_file fs f with
        | Completes =>
            (inr (transform lora_dict).2,
             <[output_path := write_safetensors (transform lora_dict).1 metadata]> fs,
             obs')
        | Raises remains =>
            (inl (SaveFailed f),
             match remains with
             | Some partial => <[output_path := partial]> fs
             | None => fs
             end,
             obs')
        end
    end.
Proof.
  unfold convert_at.
  pose proof (convert_lora_result (load_file fs) (torch_load fs)
                input_path output_path cb obs) as Hr.
  destruct (convert_lora _ _ _ _ _ _) as [[result request] obs']. cbn [fst snd] in *.
  destruct (open_checkpoint _ _ _) as [e|lora_dict]; injection Hr as -> ->; [done|].
  cbn [saved_path saved_tensors saved_metadata]. by destruct (save_file _ _).
Qed.

Lemma replay_update_progress g rs :
  progress_value (replay update_progress g rs)
  = match last rs with Some r => Int r.1 | None => progress_value g end
  ∧ dialogs (replay update_progress g rs) = dialogs g.
Proof.
  revert g. induction rs as [|r rs IH]; intros g; [done|].
  cbn [replay foldl]. fold (replay update_progress (update_progress r.1 r.2 g) rs).
  destruct (IH (update_progress r.1 r.2 g)) as [-> ->]. split.
  - destruct rs as [|r' rs].
    2:{ rewrite last_cons_cons.
        destruct (last (r' :: rs)) eqn:Hl; [done | by apply last_None in Hl]. }
    cbn [last]. unfold update_progress. by destruct (_ =? _).
  - unfold update_progress. by destruct (_ =? _).
Qed.

(** X16.  The outcome of the single-file task.  When the input loads and
    the save completes, the output path holds the file of [transform]'s
    map, the log ends with the [Finished] line and the success dialog is
    shown.  When the save raises, the disk is as before except that the
    output path may hold what was written until then; when the load fails,
    the disk is as before; in both cases the log ends with the [Error] line
    of the exception and no dialog is shown. *)
Theorem run_single_outcome in_file out_file (fs : disk) (g : gui) :
  let r := single in_file out_file (fs, g) in
  match open_checkpoint (load_file fs) (torch_load fs) in_file with
  | inr lora_dict =>
      let f := mkSaved out_file (transform lora_dict).1 metadata in
      match save_file fs f with
      | Completes =>
          r.1 = <[out_file := write_safetensors (transform lora_dict).1 metadata]> fs
          ∧ dialogs r.2 = dialogs g ++ [showinfo "Done" "Single conversion successful."]
          ∧ last (log_text r.2) = Some ("Finished: " +:+ Str.basename out_file)
      | Raises remains =>
          r.1 = match remains with
                | Some partial => <[out_file := partial]> fs
                | None => fs
                end
          ∧ dialogs r.2 = dialogs g
          ∧ last (log_text r.2) = Some ("Error: " +:+ save_error_text f)
      end
  | inl e =>
      r.1 = fs ∧ dialogs r.2 = dialogs g
      ∧ last (log_text r.2) = Some ("Error: " +:+ text (Raised in_file e))
  end.
Proof.
  cbv zeta. unfold run_single. cbn [fst snd]. rewrite convert_at_eq. cbv zeta.
  rewrite convert_lora_observer.
  set (rs := _ :: _). pose proof (replay_update_progress g rs) as [_ Hd].
  destruct (open_checkpoint _ _ _) as [e|lora_dict].
  - cbn [fst snd log dialogs log_text]. by rewrite last_snoc.
  - destruct (save_file _ _).
    + cbn [fst snd log show dialogs log_text]. by rewrite Hd, last_snoc.
    + cbn [fst snd log dialogs log_text failure_text]. by rewrite last_snoc.
Qed.

(** X17.  On an input path that ends in none of the recognised extensions
    the single-file task leaves the file system alone, sets the progress bar
    to 0, logs the [Loading] line and the line
    [Error: Unsupported file format], and shows no dialog. *)
Theorem run_single_unsupported in_file out_file (fs : disk) (g : gui) :
  Str.endswith ".safetensors" in_file = false →
  Str.endswith ".pt" in_file = false →
  Str.endswith ".pth" in_file = false →
  single in_file out_file (fs, g)
  = (fs, mkGui (Int 0)
          (log_text g ++ ["Loading: " +:+ Str.basename in_file;
                          "Error: Unsupported file format"])
          (dialogs g)).
Proof.
  intros Hst Hpt Hpth. unfold run_single. cbn [fst snd]. rewrite convert_at_eq. cbv zeta.
  rewrite convert_lora_observer. unfold open_checkpoint. rewrite Hst, Hpt, Hpth.
  cbn. unfold log, set_progress. cbn [progress_value log_text dialogs].
  by rewrite <- app_assoc.
Qed.

(** X18.  In the single-file task the progress bar never gets past 50: when
    the task ends it stands at 0 or at a value between 10 and 50. *)
Theorem run_single_progress in_file out_file (fs : disk) (g : gui) :
  ∃ v, progress_value (single in_file out_file (fs, g)).2 = Int v
       ∧ (v = 0 ∨ 10 ≤ v ≤ 50).
Proof.
  unfold run_single. cbn [fst snd]. rewrite convert_at_eq. cbv zeta.
  rewrite convert_lora_observer.
  set (rs := _ :: _). pose proof (replay_update_progress g rs) as [Hp _].
  assert (∃ r, last rs = Some r ∧ (r.1 = 0 ∨ 10 ≤ r.1 ≤ 50)) as (r & Hr & Hv).
  { subst rs. destruct (open_checkpoint _ _ _) as [e|lora_dict].
    - eexists. split; [done|]. by left.
    - pose proof (parse_reports_bounds (length lora_dict)) as [_ Hall].
      destruct (parse_reports (length lora_dict)) as [|r0 rs] eqn:Hrs using rev_ind.
      + eexists. split; [done|]. by left.
      + exists r0. rewrite app_comm_cons, last_snoc. split; [done|].
        apply Forall_app in Hall as [_ Hall]. apply Forall_singleton in Hall as [? _].
        by right. }
  rewrite Hr in Hp. exists r.1. split; [|done].
  destruct (open_checkpoint _ _ _) as [e|lora_dict]; [done|].
  by destruct (save_file _ _).
Qed.

End Single.

(** ** The batch task *)

Module PathFacts.
Import AffixFacts.

(** [os.path.join(d, x)] is [x] after nothing or after a folder part that
    ends with a slash. *)
Lemma join_shape d x :
  ∃ d', Path.join d x = d' +:+ x ∧ (d' = "" ∨ ∃ d'', d' = d'' +:+ "/").
Proof.
  unfold Path.join. destruct (Str.startswith "/" x); [by exists ""; auto|].
  destruct (bool_decide (d = "")) eqn:Hd.
  { apply bool_decide_eq_true in Hd as ->. by exists ""; auto. }
  destruct (Str.endswith "/" d) eqn:Hsl; cbn [orb].
  - exists d. split; [done|]. right. by apply endswith_spec.
  - exists (d +:+ "/"). split; [by rewrite append_assoc|]. right. by exists d.
Qed.

Lemma join_endswith sfx d x :
  Str.endswith sfx x = true → Str.endswith sfx (Path.join d x) = true.
Proof.
  intros [a ->]%endswith_spec. destruct (join_shape d (a +:+ sfx)) as (d' & -> & _).
  apply endswith_spec. exists (d' +:+ a). by rewrite append_assoc.
Qed.

(** A joined path ends in [_zimage.safetensors] only if the file name
    contains [_zimage]. *)
Lemma join_zimage d x :
  Str.endswith "_zimage.safetensors" (Path.join d x) = true →
  Str.contains "_zimage" x = true.
Proof.
  destruct (join_shape d x) as (d' & -> & Hd'). intros [a Ha]%endswith_spec.
  assert (∀ b, x = b +:+ "_zimage.safetensors" → Str.contains "_zimage" x = true) as Hsfx.
  { intros b ->. apply contains_spec. by exists b, ".safetensors". }
  destruct Hd' as [->|[d'' ->]]; [by apply (Hsfx a)|].
  apply (f_equal Str.chars) in Ha. rewrite !StrFacts.chars_app in Ha.
  apply app_eq_app in Ha as [l [[Hd Hz]|[Ha Hx]]].
  - destruct l as [|c l _] using rev_ind.
    { apply (Hsfx ""). apply StrFacts.chars_inj. symmetry. exact Hz. }
    rewrite app_assoc in Hd. apply app_inj_tail in Hd as [_ Hc].
    assert (c ∈ Str.chars "_zimage.safetensors") as Hin.
    { rewrite Hz. apply elem_of_app. left. apply elem_of_app. right. by apply list_elem_of_singleton. }
    subst c. exfalso. revert Hin. not_in_computed_keys.
  - apply (Hsfx (String.string_of_list_ascii l)). apply StrFacts.chars_inj.
    rewrite StrFacts.chars_app. unfold Str.chars at 2.
    by rewrite String.list_ascii_of_string_of_list_ascii.
Qed.

End PathFacts.

Section Batch.
Context {elt : Type} `{Element elt} {File : Type}.
Variables read_safetensors read_pickle : File → option (list (string * Tensor elt)).
Variable save_file : gmap string File → @saved elt → @save_result File.
Variable write_safetensors : gmap string (Tensor elt) → list (string * string) → File.
Variable load_error_text : string → string.
Variable save_error_text : @saved elt → string.
Variable folders : gmap string (list string).

Local Abbreviation disk := (gmap string File).
Local Abbreviation step :=
  (batch_step read_safetensors read_pickle save_file write_safetensors
     load_error_text save_error_text folders).
Local Abbreviation batch :=
  (run_batch read_safetensors read_pickle save_file write_safetensors
     load_error_text save_error_text folders).

(** One iteration leaves the disk alone or writes at the output path of
    its file; with [skip_existing] it writes only where nothing was. *)
Lemma batch_step_disk in_dir out_dir skip n (fs : disk) g i filename :
  let out_p := (batch_paths in_dir out_dir filename).2 in
  let fs' := (step in_dir out_dir skip n (fs, g) (i, filename)).1 in
  fs' = fs
  ∨ (∃ c, fs' = <[out_p := c]> fs) ∧ (skip = true → fs !! out_p = None).
Proof.
  cbv zeta. unfold batch_step, batch_paths. cbn [snd].
  set (out_p := Path.join out_dir _).
  destruct (skip && path_exists folders fs out_p) eqn:Hskip; [by auto|].
  assert (skip = true → fs !! out_p = None) as Hnew.
  { intros ->. cbn [andb] in Hskip. unfold path_exists in Hskip.
    apply orb_false_iff in Hskip as [Hfile _]. apply bool_decide_eq_false in Hfile.
    by apply eq_None_not_Some. }
  rewrite convert_at_eq. cbv zeta.
  destruct (open_checkpoint _ _ _) as [e|lora_dict]; [by auto|].
  destruct (save_file _ _) as [|[partial|]]; cbn [fst]; [| |by auto].
  - right. split; [by eexists|done].
  - right. split; [by eexists|done].
Qed.

Lemma foldl_batch_step_disk in_dir out_dir skip n items (fs : disk) g p :
  let fs' := (foldl (step in_dir out_dir skip n) (fs, g) items).1 in
  (skip = true ∧ is_Some (fs !! p))
  ∨ (∀ item, item ∈ items → p ≠ (batch_paths in_dir out_dir item.2).2) →
  fs' !! p = fs !! p.
Proof.
  cbv zeta. revert fs g. induction items as [|[i filename] items IH]; intros fs g.
  { done. }
  cbn [foldl].
  pose proof (batch_step_disk in_dir out_dir skip n fs g i filename) as Hfiles.
  destruct (step in_dir out_dir skip n (fs, g) (i, filename)) as [fs1 g1]. cbn [fst] in *.
  intros Hp.
  assert (fs1 !! p = fs !! p) as Hfs1.
  { destruct Hfiles as [->|[[c ->] Hnew]]; [done|].
    apply lookup_insert_ne. intros <-. destruct Hp as [[-> [c' Hc']]|Hp].
    - rewrite Hnew in Hc'; done.
    - apply (Hp (i, filename)); [apply elem_of_cons; by left | done]. }
  rewrite IH, Hfs1; [done|]. destruct Hp as [[-> Hsome]|Hp].
  - left. by rewrite Hfs1.
  - right. intros item Hitem. apply Hp, elem_of_cons. by right.
Qed.

Lemma run_batch_disk in_dir out_dir skip (fs : disk) g p :
  let fs' := (batch in_dir out_dir skip (fs, g)).1 in
  let out_dir' := if bool_decide (out_dir = "") then in_dir else out_dir in
  (skip = true ∧ is_Some (fs !! p))
  ∨ (∀ f, f ∈ batch_files folders in_dir → p ≠ (batch_paths in_dir out_dir' f).2) →
  fs' !! p = fs !! p.
Proof.
  cbv zeta. unfold run_batch. destruct (negb (isdir folders in_dir)); [done|].
  destruct (bool_decide (batch_files folders in_dir = [])); [done|].
  set (out_dir' := if bool_decide (out_dir = "") then in_dir else out_dir).
  set (g0 := log _ g). set (items := zip _ _).
  pose proof (foldl_batch_step_disk in_dir out_dir' skip
                (length (batch_files folders in_dir)) items fs g0 p) as Hfiles.
  destruct (foldl _ _ items) as [fs' g']. cbn [fst] in *.
  intros Hp. apply Hfiles. destruct Hp as [Hp|Hp]; [by left|]. right.
  intros [i f] Hitem. apply Hp. subst items. by apply elem_of_zip_r in Hitem.
Qed.

(** X19.  With [skip_existing] set the batch task overwrites nothing: every
    file that is on the disk before the task is there afterwards, with the
    same content, whether the saves complete or raise. *)
Theorem skip_existing_keeps_files in_dir out_dir (fs : disk) g :
  fs ⊆ (run_batch read_safetensors read_pickle save_file write_safetensors
          load_error_text save_error_text folders in_dir out_dir true (fs, g)).1.
Proof.
  apply map_subseteq_spec. intros p c Hc.
  rewrite (run_batch_disk in_dir out_dir true fs g p); [done|].
  left. by rewrite Hc.
Qed.

(** X20.  Whatever [skip_existing] is, the batch task writes nowhere but at
    the output paths of the files it takes: every other path is as
    before. *)
Theorem run_batch_frame in_dir out_dir skip (fs : disk) g p :
  (∀ f, f ∈ batch_files folders in_dir →
        p ≠ (batch_paths in_dir (if bool_decide (out_dir = "") then in_dir else out_dir) f).2) →
  (batch in_dir out_dir skip (fs, g)).1 !! p = fs !! p.
Proof.
  intros Hp. apply (run_batch_disk in_dir out_dir skip fs g p). by right.
Qed.

(** X21.  The batch task never writes over one of its input files, whatever
    the two folders are and whatever [skip_existing] is. *)
Theorem batch_inputs_untouched in_dir out_dir skip (fs : disk) g f :
  f ∈ batch_files folders in_dir →
  (batch in_dir out_dir skip (fs, g)).1 !! Path.join in_dir f
  = fs !! Path.join in_dir f.
Proof.
  intros [Hf _]%list_elem_of_filter.
  apply (run_batch_disk in_dir out_dir skip fs g (Path.join in_dir f)).
  right. intros f' _ Heq. unfold batch_paths, batch_output_name in Heq. cbn [snd] in Heq.
  assert (Str.endswith "_zimage.safetensors" (Path.join in_dir f) = true) as Hend.
  { rewrite Heq. apply PathFacts.join_endswith, AffixFacts.endswith_spec. by eexists. }
  apply PathFacts.join_zimage in Hend. unfold batch_accepts in Hf.
  rewrite Hend, andb_false_r in Hf. done.
Qed.

(** One iteration writes one line and shows no dialog. *)
Lemma batch_step_gui in_dir out_dir skip n (fs : disk) g i filename :
  let g' := (step in_dir out_dir skip n (fs, g) (i, filename)).2 in
  dialogs g' = dialogs g
  ∧ ∃ line, log_text g' = log_text g ++ [line]
            ∧ batch_line n i filename (batch_paths in_dir out_dir filename).2 line.
Proof.
  cbv zeta. unfold batch_step, batch_paths, batch_line. cbn [snd].
  set (out_p := Path.join out_dir _).
  destruct (skip && path_exists folders fs out_p).
  { split; [done|]. eexists. split; [done|]. by left. }
  rewrite convert_at_eq. cbv zeta.
  destruct (open_checkpoint _ _ _) as [e|lora_dict].
  { split; [done|]. eexists. split; [done|]. right. right. by eexists. }
  destruct (save_file _ _).
  - split; [done|]. eexists. split; [done|]. right. by left.
  - split; [done|]. eexists. split; [done|]. right. right. by eexists.
Qed.

Lemma foldl_batch_step_gui in_dir out_dir skip n items (fs : disk) g :
  let g' := (foldl (step in_dir out_dir skip n) (fs, g) items).2 in
  dialogs g' = dialogs g
  ∧ ∃ lines, log_text g' = log_text g ++ lines
             ∧ Forall2 (λ item line, batch_line n item.1 item.2
                                       (batch_paths in_dir out_dir item.2).2 line)
                       items lines.
Proof.
  cbv zeta. revert fs g. induction items as [|[i filename] items IH]; intros fs g.
  { split; [done|]. exists []. by rewrite app_nil_r. }
  cbn [foldl].
  pose proof (batch_step_gui in_dir out_dir skip n fs g i filename)
    as (Hd & line & Hlog & Hline).
  destruct (step in_dir out_dir skip n (fs, g) (i, filename)) as [fs1 g1]. cbn [snd] in *.
  destruct (IH fs1 g1) as (IHd & lines & IHlog & IHlines). split; [congruence|].
  exists (line :: lines). split; [|by constructor].
  by rewrite IHlog, Hlog, <- app_assoc.
Qed.

(** X22.  The log of a batch over a folder with files to take: the [Found]
    line, then one line for each file, in the order of the listing
    ([Skipping], [Converted] or [Failed], so that a file that fails does not
    stop the batch), then the closing line; one dialog, at the end. *)
Theorem batch_log in_dir out_dir skip (fs : disk) g :
  isdir folders in_dir = true → batch_files folders in_dir ≠ [] →
  let found := batch_files folders in_dir in
  let out_dir' := if bool_decide (out_dir = "") then in_dir else out_dir in
  let g' := (batch in_dir out_dir skip (fs, g)).2 in
  dialogs g' = dialogs g ++ [showinfo "Done" "All files processed."]
  ∧ ∃ lines,
      log_text g'
      = log_text g
        ++ ["Found " +:+ pretty (length found) +:+ " files. Starting batch processing..."]
        ++ lines ++ ["Batch processing complete."]
      ∧ length lines = length found
      ∧ ∀ i f, found !! i = Some f →
          ∃ line, lines !! i = Some line
                  ∧ batch_line (length found) i f (batch_paths in_dir out_dir' f).2 line.
Proof.
  intros Hdir Hfound. cbv zeta. unfold run_batch. rewrite Hdir. cbn [negb].
  rewrite bool_decide_eq_false_2 by done.
  set (found := batch_files folders in_dir) in *.
  set (out_dir' := if bool_decide (out_dir = "") then in_dir else out_dir).
  set (g0 := log _ g). set (items := zip _ _).
  pose proof (foldl_batch_step_gui in_dir out_dir' skip (length found) items fs g0)
    as (Hd & lines & Hlog & Hlines).
  destruct (foldl _ _ items) as [fs' g']. cbn [fst snd] in *. split.
  - cbn [show dialogs log]. by rewrite Hd.
  - exists lines.
    assert (length items = length found) as Hlen.
    { subst items. rewrite length_zip, length_seq. lia. }
    split; [|split].
    + cbn [show log log_text]. rewrite Hlog. subst g0. cbn [log log_text].
      by rewrite <- !app_assoc.
    + by rewrite <- (Forall2_length _ _ _ Hlines).
    + intros i f Hf.
      assert (items !! i = Some (i, f)) as Hitem.
      { subst items. rewrite lookup_zip_with, Hf.
        rewrite lookup_seq_lt by (by eapply lookup_lt_Some). done. }
      destruct (Forall2_lookup_l _ _ _ _ _ Hlines Hitem) as (line & Hl & Hline).
      by exists line.
Qed.

End Batch.

(** ** The two tasks on the sample folder *)

Lemma run_single_unsupported_witness :
  sample_single "/loras/style.ckpt" "/loras/out.safetensors" (sample_files, sample_gui)
  = (sample_files,
     mkGui (Int 0)
       (log_text sample_gui ++ ["Loading: " +:+ Str.basename "/loras/style.ckpt";
                                "Error: Unsupported file format"])
       (dialogs sample_gui)).
Proof. apply run_single_unsupported; vm_compute; reflexivity. Defined.

Lemma run_batch_frame_witness :
  (sample_batch "/loras" "/out" false (sample_files, sample_gui)).1
    !! "/loras/done_zimage.safetensors"
  = sample_files !! "/loras/done_zimage.safetensors".
Proof.
  apply run_batch_frame. intros f Hf%list_elem_of_In. vm_compute in Hf.
  repeat (destruct Hf as [<-|Hf]; [vm_compute; discriminate|]). destruct Hf.
Defined.

Lemma batch_inputs_untouched_witness :
  (sample_batch "/loras" "" false (sample_files, sample_gui)).1
    !! Path.join "/loras" "done.safetensors"
  = sample_files !! Path.join "/loras" "done.safetensors".
Proof. apply batch_inputs_untouched. in_computed_list. Defined.

Lemma batch_log_witness :
  let found := batch_files sample_folders "/loras" in
  let out_dir' := if bool_decide ("" = "") then "/loras" else "" in
  let g' := (sample_batch "/loras" "" true (sample_files, sample_gui)).2 in
  dialogs g' = dialogs sample_gui ++ [showinfo "Done" "All files processed."]
  ∧ ∃ lines,
      log_text g'
      = log_text sample_gui
        ++ ["Found " +:+ pretty (length found) +:+ " files. Starting batch processing..."]
        ++ lines ++ ["Batch processing complete."]
      ∧ length lines = length found
      ∧ ∀ i f, found !! i = Some f →
          ∃ line, lines !! i = Some line
                  ∧ batch_line (length found) i f (batch_paths "/loras" out_dir' f).2 line.
Proof.
  apply (batch_log (elt := float) Some (λ _, None) sample_save (λ m _, map_to_list m)
           (λ _, "file cannot be read") (λ _, "file cannot be written") sample_folders
           "/loras" "" true sample_files sample_gui).
  - vm_compute. reflexivity.
  - vm_compute. discriminate.
Defined.

(** ** Factors whose shapes differ *)

Section Broadcast.
Context {elt : Type} `{Element elt}.

Lemma strip_ones_row r :
  strip_ones [1; r] = if decide (r = 1) then [] else [r].
Proof. destruct r as [|[|r]]; done. Qed.

Lemma assignable_row h r : assignable [1; r] h r = true.
Proof.
  unfold assignable. rewrite strip_ones_row. destruct (decide (r = 1)).
  - apply orb_true_r.
  - by rewrite Nat.eqb_refl, !orb_true_r.
Qed.

Lemma broadcast_read_row (src : Tensor elt) h r i j :
  shape src = [1; r] → i < h → j < r →
  broadcast_read src h r i j = nth j (data src) zero.
Proof.
  intros Hs Hi Hj. unfold broadcast_read. rewrite Hs, strip_ones_row.
  destruct (decide ([1; r] = [h; r])) as [[= <-]|_].
  { f_equal. lia. }
  destruct (decide (r = 1)) as [->|Hr].
  - f_equal. lia.
  - by rewrite (proj2 (Nat.eqb_neq r 1)).
Qed.

(** X23.  The fusion does not ask the factor B of k to have the shape of
    that of q: one of shape [(1, r)] is accepted, and its row is repeated in
    each of the [h] rows of the k block of the fused factor B. *)
Theorem row_factor_is_broadcast (d : @qkv elt) (qB kB vB qA kA vA : Tensor elt) h r n :
  get_slot attn_q lora_B d = Some qB → get_slot attn_k lora_B d = Some kB →
  get_slot attn_v lora_B d = Some vB → get_slot attn_q lora_A d = Some qA →
  get_slot attn_k lora_A d = Some kA → get_slot attn_v lora_A d = Some vA →
  shape qB = [h; r] → shape kB = [1; r] → shape vB = [h; r] →
  shape qA = [r; n] → shape kA = [r; n] → shape vA = [r; n] →
  wf qB → wf kB → wf vB →
  ∃ qkv_B qkv_A,
    fuse_tensors d = Some (qkv_B, qkv_A)
    ∧ shape qkv_B = [3 * h; 3 * r]
    ∧ ∀ i j, i < h → j < r → get2 qkv_B (h + i) (r + j) = data kB !! j.
Proof.
  intros HqB HkB HvB HqA HkA HvA SqB SkB SvB SqA SkA SvA WqB WkB WvB.
  unfold fuse_tensors. rewrite HqB, HkB, HvB, HqA, HkA, HvA. cbn [mbind option_bind].
  rewrite SqB. cbn [mbind option_bind].
  destruct (setitem2_get2 (zeros (3 * h) (3 * r)) qB (None, Some h) (None, Some r)
              (3 * h) (3 * r) 0 h 0 r) as (t1 & -> & S1 & W1 & G1);
    [done|apply zeros_wf|apply slice_first|apply slice_first
    |rewrite SqB; apply assignable_same|].
  cbn [mbind option_bind].
  destruct (setitem2_get2 t1 kB (Some h, Some (2 * h)) (Some r, Some (2 * r))
              (3 * h) (3 * r) h h r r) as (t2 & -> & S2 & W2 & G2);
    [done|done|apply slice_middle|apply slice_middle
    |rewrite SkB; apply assignable_row|].
  cbn [mbind option_bind].
  destruct (setitem2_get2 t2 vB (Some (2 * h), None) (Some (2 * r), None)
              (3 * h) (3 * r) (2 * h) h (2 * r) r) as (t3 & -> & S3 & W3 & G3);
    [done|done|apply slice_last|apply slice_last
    |rewrite SvB; apply assignable_same|].
  cbn [mbind option_bind].
  rewrite (cat0_three qA kA vA r r r n) by done. cbn [mbind option_bind].
  eexists _, _. split; [done|]. split; [done|].
  intros i j Hi Hj. rewrite G3, G2 by lia. decide_bounds.
  replace (h + i - h) with i by lia. replace (r + j - r) with j by lia.
  rewrite (broadcast_read_row kB h r i j SkB Hi Hj).
  assert (j < length (data kB)) as Hlen.
  { unfold wf in WkB. rewrite WkB, SkB. simpl. lia. }
  destruct (lookup_lt_is_Some_2 _ _ Hlen) as [x Hx]. rewrite Hx.
  f_equal. by apply nth_lookup_Some.
Qed.

End Broadcast.

Lemma row_factor_is_broadcast_witness :
  ∃ qkv_B qkv_A : Tensor float,
    fuse_tensors row_k_qkv = Some (qkv_B, qkv_A)
    ∧ shape qkv_B = [3 * 2; 3 * 1]
    ∧ ∀ i j, i < 2 → j < 1 → get2 qkv_B (2 + i) (1 + j) = data (mat 1 1 [7]%float) !! j.
Proof.
  apply (row_factor_is_broadcast row_k_qkv
           (mat 2 1 [3; 4]%float) (mat 1 1 [7]%float) (mat 2 1 [11; 12]%float)
           (mat 1 2 [1; 2]%float) (mat 1 2 [5; 6]%float) (mat 1 2 [9; 10]%float) 2 1 2);
    reflexivity.
Defined.
